(** * Type-resolution engine of package [inspect] (github.com/jcdotter/go)

    A shallow embedding of the package loader, the declaration inspector,
    the identifier resolver and the expression type evaluator, together
    with the properties of the design document that concern them.

    Go pointers are addresses into typed stores (one store per struct
    type); two pointers are the same instance exactly when the addresses
    are equal.  A Go panic (nil dereference, failed type assertion, index
    or slice out of range) is the outcome [Panic]. *)

From stdpp Require Import base list strings.
From Stdlib Require Import ZArith Ascii String Lia.

Set Warnings "-register-all".

Local Open Scope Z_scope.
Local Open Scope string_scope.
Local Open Scope nat_scope.
Local Open Scope list_scope.

(** ** Library functions of [strings] and [strconv] used by the package *)

Module strings.

Fixpoint lastIndexFrom (c : ascii) (s : string) (i : Z) (found : Z) : Z :=
  match s with
  | EmptyString => found
  | String a s' => lastIndexFrom c s' (i + 1)%Z (if Ascii.eqb a c then i else found)
  end.

(** [strings.LastIndex(s, sep)] for a one-byte separator: the index of
    the last occurrence, or -1. *)
Definition LastIndex (s : string) (c : ascii) : Z :=
  lastIndexFrom c s 0%Z (-1)%Z.

(** The slice expression [s[lo:hi]]; [None] stands for the run-time
    panic on bounds out of range. *)
Definition slice (s : string) (lo hi : Z) : option string :=
  if ((0 <=? lo)%Z && (lo <=? hi)%Z && (hi <=? Z.of_nat (String.length s))%Z)%bool
  then Some (substring (Z.to_nat lo) (Z.to_nat (hi - lo)) s)
  else None.

(** [strings.Split(s, sep)] for a one-byte separator. *)
Fixpoint Split (s : string) (sep : ascii) : list string :=
  match s with
  | EmptyString => [EmptyString]
  | String a s' =>
      if Ascii.eqb a sep then EmptyString :: Split s' sep
      else match Split s' sep with
           | h :: t => String a h :: t
           | [] => [String a EmptyString]
           end
  end.

End strings.

Module strconv.

Definition digit (a : ascii) : option Z :=
  let n := Z.of_nat (nat_of_ascii a) in
  if ((48 <=? n)%Z && (n <=? 57)%Z)%bool then Some (n - 48)%Z else None.

Fixpoint digits (s : string) (acc : Z) : option Z :=
  match s with
  | EmptyString => Some acc
  | String a s' =>
      match digit a with
      | Some d => digits s' (10 * acc + d)%Z
      | None => None
      end
  end.

Definition maxInt : Z := (2 ^ 63 - 1)%Z.
Definition minInt : Z := (- 2 ^ 63)%Z.

(** The value returned by [strconv.Atoi]; its error is dropped by the
    only caller.  A syntax error gives 0, a range error the nearest
    bound of a 64-bit [int]. *)
Definition Atoi (s : string) : Z :=
  let '(neg, body) :=
    match s with
    | String "-" r => (true, r)
    | String "+" r => (false, r)
    | _ => (false, s)
    end in
  match body with
  | EmptyString => 0%Z
  | _ =>
      match digits body 0%Z with
      | None => 0%Z
      | Some v =>
          let v' := if neg then (- v)%Z else v in
          Z.max minInt (Z.min maxInt v')
      end
  end.

End strconv.

(** ** The ordered keyed container *)

(** Modelled from the spec: the container [data.Data] is declared in
    package [data], outside the verified sources.  The design document
    gives its interface: an ordered key-value container, keys unique,
    insertion order preserved, lookup by key and by positional index.
    An element is stored under the key it has when it is added (the name
    of a File, Type, Value, Func or file-level Import, the path of a
    Package).  Adding under a key that is already present keeps the
    key's position and stores the new element there; the properties
    proved below only add under keys that are absent, where this choice
    plays no role. *)
Module Data.

Definition t (A : Type) : Type := list (string * A).

Definition empty {A : Type} : t A := [].

Fixpoint Get {A : Type} (d : t A) (k : string) : option A :=
  match d with
  | [] => None
  | (k', v) :: d' => if String.eqb k' k then Some v else Get d' k
  end.

Fixpoint Add {A : Type} (d : t A) (k : string) (v : A) : t A :=
  match d with
  | [] => [(k, v)]
  | (k', v') :: d' =>
      if String.eqb k' k then (k, v) :: d' else (k', v') :: Add d' k v
  end.

Definition Len {A : Type} (d : t A) : nat := List.length d.

Definition Index {A : Type} (d : t A) (i : nat) : option A := snd <$> d !! i.

Definition List {A : Type} (d : t A) : list A := snd <$> d.

Definition Keys {A : Type} (d : t A) : list string := fst <$> d.

End Data.

(** ** Syntax trees ([go/token], [go/ast]) *)

Module token.

Inductive Token : Set :=
| ILLEGAL | INT | FLOAT | IMAG | CHAR | STRING
| ADD | SUB | MUL | QUO | REM | AND | OR | XOR | NOT | ARROW
| EQL | LSS | GTR | LAND | LOR
| CONST | VAR | TYPE | IMPORT.

End token.

Module ast.

Inductive ObjKind : Set := Bad | Pkg | Con | Typ | Var | Fun | Lbl.

(** [Object.Decl] points back into the tree, so trees are cyclic; the
    pointer ([ObjDecl]) is a key into the table of declaration nodes. *)
Definition DeclId := nat.

Record Object : Set := { ObjKindOf : ObjKind; ObjDecl : DeclId }.

Record Ident : Set := { Name : string; Obj : option Object }.

Inductive Expr : Set :=
| BasicLit (Kind : token.Token) (Value : string)
| ParenExpr (X : Expr)
| IdentExpr (i : Ident)
| StarExpr (X : Expr)
| UnaryExpr (Op : token.Token) (X : Expr)
| BinaryExpr (X : Expr) (Op : token.Token) (Y : Expr)
| CallExpr (Fun : Expr) (Args : list Expr)
| FuncLit (Params Results : option (list Field))
| CompositeLit (Typ : option Expr) (Elts : list Expr)
| SelectorExpr (X : Expr) (Sel : Ident)
| ArrayType (Len : option Expr) (Elt : Expr)
| MapType (Key Value : Expr)
| StructType (Fields : list Field)
| Ellipsis (Elt : option Expr)
| OtherExpr
with Field : Set :=
| mkField (Names : list Ident) (Typ : Expr).

Definition FieldNames (fld : Field) : list Ident :=
  match fld with mkField names _ => names end.
Definition FieldType (fld : Field) : Expr :=
  match fld with mkField _ typ => typ end.

Record ImportSpec : Set := { ImportName : option Ident; PathValue : string }.
Record ValueSpec : Set :=
  { Names : list Ident; Type_ : option Expr; Values : list Expr }.
Record TypeSpec : Set := { TypeName : Ident; TypeExpr : Expr }.
Record FuncDecl : Set :=
  { FuncName : Ident; Params : option (list Field); Results : option (list Field) }.

Inductive Spec : Set :=
| ImportS (s : ImportSpec)
| ValueS (s : ValueSpec)
| TypeS (s : TypeSpec).

Inductive Decl : Set :=
| FuncD (d : FuncDecl)
| GenD (Tok : token.Token) (Specs : list Spec)
| BadD.

(** What [Object.Decl] can point to. *)
Inductive Node : Set :=
| ValueSpecN (s : ValueSpec)
| TypeSpecN (s : TypeSpec)
| FuncDeclN (d : FuncDecl)
| OtherN.

(** [ast.File]: the package clause and the top-level declarations. *)
Record File : Set := { PkgName : string; Decls : list Decl }.

End ast.

(** ** Data model of package [inspect] *)

(** Modelled from the spec: the struct declarations of the package
    ([Package], [File], [Import], [Type], [Value], [Func] and the
    payloads [Pointer], [Array], [Map], [Struct]) lie outside the
    verified sources.  The records below have the fields that the code
    reads and writes, with the meaning the design document gives them. *)

(** Addresses into the stores. *)
Abbreviation PkgRef := nat.
Abbreviation FileRef := nat.
Abbreviation TypeRef := nat.
Abbreviation ValueRef := nat.
Abbreviation ImportRef := nat.
Abbreviation FuncRef := nat.

(** Kind tags of a Type, as the design document lists them. *)
Inductive Kind : Set :=
| BASIC | POINTER | SLICE | ARRAY | ELIPS | MAP | STRUCT | FUNC.

(** Kind tags of a Value (the [k byte] of [InspectValues]). *)
Inductive ValueKind : Set := CONST | VAR.

(** The payload [object] of a Type.  [Pointer], [Array] and [Map] are
    complete when their constructor returns and are stored by value;
    a [Func] is filled in afterwards through a pointer and has a store of
    its own. *)
Inductive Object : Set :=
| PointerObj (typ : TypeRef) (elem : TypeRef)
| ArrayObj (typ : TypeRef) (elem : TypeRef) (len : Z)
| MapObj (typ : TypeRef) (key elem : TypeRef)
| StructObj (typ : TypeRef)
| FuncObj (fn : FuncRef).

Record Type_ := mkType
  { t_file : option FileRef; t_name : string; t_kind : Kind; t_object : option Object }.

Record Value := mkValue
  { v_file : option FileRef; v_kind : ValueKind; v_name : string; v_typ : option TypeRef }.

Record Import := mkImport
  { i_file : FileRef; i_name : string; i_pkg : option PkgRef }.

(** Modelled from the spec: a Func has an ordered sequence of input
    Types and one of output Types ([in], [out]).  The code hands them to
    [TypeFuncParams] as [*data.Data]: each field is a pointer to a
    container, and nil as long as no container has been attached to
    it. *)
Record Func := mkFunc
  { fn_file : FileRef; fn_typ : option TypeRef;
    fn_in : option (Data.t TypeRef); fn_out : option (Data.t TypeRef) }.

Record File := mkFile
  { f_p : PkgRef; f_name : string; f_t : option ast.File; f_i : Data.t ImportRef }.

Record Package := mkPackage
  { Path : string; Name : string;
    Files : Data.t FileRef; Types : Data.t TypeRef; Values : Data.t ValueRef;
    Funcs : Data.t FuncRef; Imports : Data.t PkgRef; p_i : bool }.

Inductive error : Set :=
| ErrNotType
| ParseError (msg : string).

(** The stores, and the two process-wide builtin tables. *)
Record State := mkState
  { pkgs : list Package; files : list File; types : list Type_;
    values : list Value; imports : list Import; funcs : list Func;
    BuiltinTypes : Data.t TypeRef; BuiltinValues : Data.t ValueRef }.

(** What the code takes from outside, as parameters: the file
    enumeration [path.Files], the parser [parser.ParseFile] (a tree,
    possibly partial, and an error message if parsing failed), the
    declaration nodes that [Object.Decl] pointers lead to, [TypeToken],
    the function of the package that gives the builtin Type of a literal
    kind (or nil) and is declared outside the verified sources, and what
    the methods [Add] and [List] of the container do when they are
    called on a nil container: the message of the panic, or nothing when
    the call returns.  A call of [Add] that returns has stored nothing,
    as there is no container to store in, and a call of [List] that
    returns has no element to give. *)
Record World : Type := mkWorld
  { path_Files : string -> list string;
    parser_ParseFile : string -> option ast.File * option string;
    Obj_Decl : ast.DeclId -> ast.Node;
    TypeToken : token.Token -> option TypeRef;
    Data_Add_nil : option TypeRef -> option string;
    Data_List_nil : option string }.

(** ** Outcomes and the state monad *)

Inductive outcome (A : Type) : Type :=
| Done (a : A) (s : State)
| Panic (msg : string)
| OutOfFuel.
Arguments Done {A} a s.
Arguments Panic {A} msg.
Arguments OutOfFuel {A}.

Definition M (A : Type) : Type := State -> outcome A.

Definition ret {A : Type} (a : A) : M A := fun s => Done a s.

Definition bind {A B : Type} (m : M A) (k : A -> M B) : M B :=
  fun s =>
    match m s with
    | Done a s' => k a s'
    | Panic msg => Panic msg
    | OutOfFuel => OutOfFuel
    end.

Notation "x <- m ;; k" := (bind m (fun x => k))
  (at level 100, m at next level, right associativity).
Notation "m ;;; k" := (bind m (fun _ => k))
  (at level 100, right associativity).

Definition get : M State := fun s => Done s s.
Definition modify (g : State -> State) : M unit := fun s => Done tt (g s).
Definition panic {A : Type} (msg : string) : M A := fun _ => Panic msg.

Definition nil_deref : string := "nil pointer dereference".
Definition bad_assert : string := "interface conversion".
Definition out_of_range : string := "index out of range".

(** Following a pointer that may be nil. *)
Definition deref {A : Type} (o : option A) : M A :=
  match o with
  | Some a => ret a
  | None => panic nil_deref
  end.

(** A call of a method of the container on a nil container: it panics
    with the message [msg], or returns. *)
Definition on_nil (o : option string) : M unit :=
  match o with
  | Some msg => panic msg
  | None => ret tt
  end.

Definition with_pkgs (g : list Package -> list Package) (s : State) : State :=
  mkState (g (pkgs s)) (files s) (types s) (values s) (imports s) (funcs s)
          (BuiltinTypes s) (BuiltinValues s).
Definition with_files (g : list File -> list File) (s : State) : State :=
  mkState (pkgs s) (g (files s)) (types s) (values s) (imports s) (funcs s)
          (BuiltinTypes s) (BuiltinValues s).
Definition with_types (g : list Type_ -> list Type_) (s : State) : State :=
  mkState (pkgs s) (files s) (g (types s)) (values s) (imports s) (funcs s)
          (BuiltinTypes s) (BuiltinValues s).
Definition with_values (g : list Value -> list Value) (s : State) : State :=
  mkState (pkgs s) (files s) (types s) (g (values s)) (imports s) (funcs s)
          (BuiltinTypes s) (BuiltinValues s).
Definition with_imports (g : list Import -> list Import) (s : State) : State :=
  mkState (pkgs s) (files s) (types s) (values s) (g (imports s)) (funcs s)
          (BuiltinTypes s) (BuiltinValues s).
Definition with_funcs (g : list Func -> list Func) (s : State) : State :=
  mkState (pkgs s) (files s) (types s) (values s) (imports s) (g (funcs s))
          (BuiltinTypes s) (BuiltinValues s).

(** Reading through a pointer. *)
Definition getPkg (p : PkgRef) : M Package := s <- get ;; deref (pkgs s !! p).
Definition getFile (f : FileRef) : M File := s <- get ;; deref (files s !! f).
Definition getType (t : TypeRef) : M Type_ := s <- get ;; deref (types s !! t).
Definition getValue (v : ValueRef) : M Value := s <- get ;; deref (values s !! v).
Definition getImport (i : ImportRef) : M Import := s <- get ;; deref (imports s !! i).
Definition getFunc (fn : FuncRef) : M Func := s <- get ;; deref (funcs s !! fn).

(** Allocation: the new object gets the next free address of its store. *)
Definition newPkg (x : Package) : M PkgRef :=
  fun s => Done (List.length (pkgs s)) (with_pkgs (fun l => l ++ [x]) s).
Definition newFile (x : File) : M FileRef :=
  fun s => Done (List.length (files s)) (with_files (fun l => l ++ [x]) s).
Definition newType (x : TypeRef -> Type_) : M TypeRef :=
  fun s => let a := List.length (types s) in
           Done a (with_types (fun l => l ++ [x a]) s).
Definition newValue (x : Value) : M ValueRef :=
  fun s => Done (List.length (values s)) (with_values (fun l => l ++ [x]) s).
Definition newImport (x : Import) : M ImportRef :=
  fun s => Done (List.length (imports s)) (with_imports (fun l => l ++ [x]) s).
Definition newFunc (x : Func) : M FuncRef :=
  fun s => Done (List.length (funcs s)) (with_funcs (fun l => l ++ [x]) s).

(** Writing through a pointer. *)
Definition setPkg (p : PkgRef) (g : Package -> Package) : M unit :=
  modify (with_pkgs (alter g p)).
Definition setFile (f : FileRef) (g : File -> File) : M unit :=
  modify (with_files (alter g f)).
Definition setValue (v : ValueRef) (g : Value -> Value) : M unit :=
  modify (with_values (alter g v)).
Definition setImport (i : ImportRef) (g : Import -> Import) : M unit :=
  modify (with_imports (alter g i)).
Definition setFunc (fn : FuncRef) (g : Func -> Func) : M unit :=
  modify (with_funcs (alter g fn)).

(** Field updates used by the code. *)
Definition pkg_addFile (n : string) (f : FileRef) (p : Package) : Package :=
  mkPackage (Path p) (Name p) (Data.Add (Files p) n f) (Types p) (Values p)
            (Funcs p) (Imports p) (p_i p).
Definition pkg_addType (n : string) (t : TypeRef) (p : Package) : Package :=
  mkPackage (Path p) (Name p) (Files p) (Data.Add (Types p) n t) (Values p)
            (Funcs p) (Imports p) (p_i p).
Definition pkg_addValue (n : string) (v : ValueRef) (p : Package) : Package :=
  mkPackage (Path p) (Name p) (Files p) (Types p) (Data.Add (Values p) n v)
            (Funcs p) (Imports p) (p_i p).
Definition pkg_addImport (n : string) (q : PkgRef) (p : Package) : Package :=
  mkPackage (Path p) (Name p) (Files p) (Types p) (Values p)
            (Funcs p) (Data.Add (Imports p) n q) (p_i p).
Definition pkg_setName (n : string) (p : Package) : Package :=
  mkPackage (Path p) n (Files p) (Types p) (Values p) (Funcs p) (Imports p) (p_i p).
Definition pkg_setI (b : bool) (p : Package) : Package :=
  mkPackage (Path p) (Name p) (Files p) (Types p) (Values p) (Funcs p) (Imports p) b.
Definition file_setT (t : option ast.File) (f : File) : File :=
  mkFile (f_p f) (f_name f) t (f_i f).
Definition file_addImport (n : string) (i : ImportRef) (f : File) : File :=
  mkFile (f_p f) (f_name f) (f_t f) (Data.Add (f_i f) n i).
Definition value_setTyp (t : option TypeRef) (v : Value) : Value :=
  mkValue (v_file v) (v_kind v) (v_name v) t.
Definition import_setPkg (q : PkgRef) (i : Import) : Import :=
  mkImport (i_file i) (i_name i) (Some q).
Definition func_setTyp (t : TypeRef) (fn : Func) : Func :=
  mkFunc (fn_file fn) (Some t) (fn_in fn) (fn_out fn).

(** The two lists of a [Func] that [TypeFuncParams] can be pointed at. *)
Inductive Side : Set := In_ | Out_.

Definition func_list (side : Side) (fn : Func) : option (Data.t TypeRef) :=
  match side with
  | In_ => fn_in fn
  | Out_ => fn_out fn
  end.

(** Adding to the container that one of the two fields points to. *)
Definition func_add (side : Side) (n : string) (t : TypeRef) (fn : Func) : Func :=
  match side with
  | In_ => mkFunc (fn_file fn) (fn_typ fn) ((fun d => Data.Add d n t) <$> fn_in fn) (fn_out fn)
  | Out_ => mkFunc (fn_file fn) (fn_typ fn) (fn_in fn) ((fun d => Data.Add d n t) <$> fn_out fn)
  end.

(** Modelled from the spec: the constructor [NewPackage] lies outside
    the verified sources.  A Package is created on first reference, with
    its path, empty tables and the flag "unparsed". *)
Definition NewPackage (path : string) : M PkgRef :=
  newPkg (mkPackage path EmptyString Data.empty Data.empty Data.empty
                    Data.empty Data.empty false).

(** Modelled from the spec: the constructor [NewFile] lies outside the
    verified sources.  A File belongs to its package, has a name, no tree
    yet and an empty Import table. *)
Definition NewFile (p : PkgRef) (n : string) : M FileRef :=
  newFile (mkFile p n None Data.empty).

(** ** The package loader, the inspector and the evaluator *)

(** How the body of a [for] loop that contains [return] ends. *)
Inductive flow : Set :=
| Next
| Return (err : option error).

Section Engine.

Context (W : World).

(** [f[strings.LastIndex(f, "/")+1 : strings.LastIndex(f, ".")]] *)
Definition fileName (f : string) : option string :=
  strings.slice f (strings.LastIndex f "/" + 1)%Z (strings.LastIndex f ".").

(** The loop of [Parse] over the enumerated files. *)
Fixpoint Parse_range (p : PkgRef) (fs : list string) : M flow :=
  match fs with
  | [] => ret Next
  | f :: rest =>
      n <- match fileName f with
           | Some n => ret n
           | None => panic out_of_range
           end ;;
      pk <- getPkg p ;;
      match Data.Get (Files pk) n with
      | Some _ => ret (Return None)
      | None =>
          file <- NewFile p n ;;
          setPkg p (pkg_addFile n file) ;;;
          let '(t, err) := parser_ParseFile W f in
          setFile file (file_setT t) ;;;
          match err with
          | Some msg => ret (Return (Some (ParseError msg)))
          | None => Parse_range p rest
          end
      end
  end.

Definition Parse (p : PkgRef) : M (option error) :=
  pk <- getPkg p ;;
  r <- Parse_range p (path_Files W (Path pk)) ;;
  match r with
  | Return err => ret err
  | Next =>
      pk <- getPkg p ;;
      if 0 <? Data.Len (Files pk) then
        f0 <- deref (Data.Index (Files pk) 0) ;;
        fl <- getFile f0 ;;
        t <- deref (f_t fl) ;;
        setPkg p (pkg_setName (ast.PkgName t)) ;;;
        ret None
      else ret None
  end.

(** The loop of [InspectImports]. *)
Fixpoint InspectImports_range (f : FileRef) (specs : list ast.Spec) : M unit :=
  match specs with
  | [] => ret tt
  | s :: rest =>
      i <- match s with
           | ast.ImportS i => ret i
           | _ => panic bad_assert
           end ;;
      name <- deref (ast.ImportName i) ;;
      imp <- newImport (mkImport f (ast.Name name) None) ;;
      getFile f ;;;
      setFile f (file_addImport (ast.Name name) imp) ;;;
      let pkgPath := ast.PathValue i in
      fl <- getFile f ;;
      pk <- getPkg (f_p fl) ;;
      match Data.Get (Imports pk) pkgPath with
      | Some pkg => setImport imp (import_setPkg pkg)
      | None =>
          q <- NewPackage pkgPath ;;
          setImport imp (import_setPkg q) ;;;
          setPkg (f_p fl) (pkg_addImport pkgPath q)
      end ;;;
      InspectImports_range f rest
  end.

Definition InspectImports (f : FileRef) (specs : list ast.Spec) : M (option error) :=
  InspectImports_range f specs ;;; ret None.

Definition InspectType (f : FileRef) (t : list ast.Spec) : M (option error) :=
  ret None.

Definition InspectFunc (f : FileRef) (fn : ast.FuncDecl) : M (option error) :=
  ret None.

(** [GetType]: builtin types, then the declared types of the package,
    then the imported package of a qualified name. *)
Definition GetType (f : FileRef) (name : string) : M (option TypeRef * option error) :=
  s <- get ;;
  match Data.Get (BuiltinTypes s) name with
  | Some t => ret (Some t, None)
  | None =>
      fl <- getFile f ;;
      pk <- getPkg (f_p fl) ;;
      match Data.Get (Types pk) name with
      | Some t => ret (Some t, None)
      | None =>
          match strings.Split name "." with
          | part0 :: part1 :: _ =>
              match Data.Get (f_i fl) part0 with
              | Some imp =>
                  i <- getImport imp ;;
                  q <- deref (i_pkg i) ;;
                  qk <- getPkg q ;;
                  match Data.Get (Types qk) part1 with
                  | Some t => ret (Some t, None)
                  | None =>
                      err <- Parse q ;;
                      match err with
                      | Some e => ret (None, Some e)
                      | None =>
                          qk' <- getPkg q ;;
                          match Data.Get (Types qk') part1 with
                          | Some t => ret (Some t, None)
                          | None => ret (None, Some ErrNotType)
                          end
                      end
                  end
              | None => ret (None, Some ErrNotType)
              end
          | _ => ret (None, None)
          end
      end
  end.

(** *** Functions that re-enter [TypeExpr]

    [self] is the recursive call [f.TypeExpr]; the knot is tied by
    [TypeExpr] below. *)
Section Evaluator.

Variable self : FileRef -> ast.Expr -> M (option TypeRef).

(** [for i, t := range out.List() { types[i] = t }] *)
Fixpoint assignOuts (i : nat) (outs : list TypeRef) (types : list (option TypeRef))
  : M (list (option TypeRef)) :=
  match outs with
  | [] => ret types
  | t :: rest =>
      if i <? List.length types
      then assignOuts (S i) rest (<[i := Some t]> types)
      else panic out_of_range
  end.

(** The last loop of [InspectValues]: one Value per name not skipped.
    [f.PrintValue(val)] only writes to the standard output and is left
    out, as is the diagnostic print of [TypeExpr]. *)
Fixpoint InspectValues_names (f : FileRef) (k : ValueKind) (typ : option TypeRef)
         (types : list (option TypeRef)) (vals : ast.ValueSpec)
         (i : nat) (names : list (option ast.Ident)) : M unit :=
  match names with
  | [] => ret tt
  | None :: rest => InspectValues_names f k typ types vals (S i) rest
  | Some n :: rest =>
      val <- newValue (mkValue (Some f) k (ast.Name n) None) ;;
      fl <- getFile f ;;
      getPkg (f_p fl) ;;;
      setPkg (f_p fl) (pkg_addValue (ast.Name n) val) ;;;
      match typ with
      | Some t => setValue val (value_setTyp (Some t))
      | None =>
          match types !! i with
          | Some ty => setValue val (value_setTyp ty)
          | None =>
              match ast.Values vals !! i with
              | Some e =>
                  ty <- self f e ;;
                  setValue val (value_setTyp ty)
              | None => ret tt
              end
          end
      end ;;;
      InspectValues_names f k typ types vals (S i) rest
  end.

(** The loop of [InspectValues] over the specs, [priorType] threaded. *)
Fixpoint InspectValues_range (f : FileRef) (k : ValueKind)
         (priorType : option TypeRef) (specs : list ast.Spec) : M unit :=
  match specs with
  | [] => ret tt
  | s :: rest =>
      vals <- match s with
              | ast.ValueS v => ret v
              | _ => panic bad_assert
              end ;;
      fl <- getFile f ;;
      pk <- getPkg (f_p fl) ;;
      let names :=
        (fun n => match Data.Get (Values pk) (ast.Name n) with
                  | None => Some n
                  | Some _ => None
                  end) <$> ast.Names vals in
      let num := List.length (omap id names) in
      if num =? 0 then InspectValues_range f k priorType rest
      else
        tp <- match ast.Type_ vals with
              | Some te => typ <- self f te ;; ret (typ, typ)
              | None =>
                  match priorType with
                  | Some pt =>
                      if List.length (ast.Values vals) =? 0
                      then ret (Some pt, priorType)
                      else ret (None, priorType)
                  | None => ret (None, priorType)
                  end
              end ;;
        let '(typ, priorType') := tp in
        types <- match typ, (1 <? num) && (List.length (ast.Values vals) =? 1) with
                 | None, true =>
                     let types := replicate num None in
                     e0 <- deref (ast.Values vals !! 0) ;;
                     t <- self f e0 ;;
                     match t with
                     | Some tr =>
                         ty <- getType tr ;;
                         match t_kind ty, t_object ty with
                         | FUNC, Some o =>
                             fn <- match o with
                                   | FuncObj fn => ret fn
                                   | _ => panic bad_assert
                                   end ;;
                             fnc <- getFunc fn ;;
                             match fn_out fnc with
                             | Some out => assignOuts 0 (Data.List out) types
                             | None => on_nil (Data_List_nil W) ;;; ret types
                             end
                         | _, _ => ret types
                         end
                     | None => ret types
                     end
                 | _, _ => ret []
                 end ;;
        InspectValues_names f k typ types vals 0 names ;;;
        InspectValues_range f k priorType' rest
  end.

Definition InspectValues (f : FileRef) (k : ValueKind) (specs : list ast.Spec)
  : M (option error) :=
  InspectValues_range f k None specs ;;; ret None.

Definition InspectValue (f : FileRef) (k : ValueKind) (v : ast.ValueSpec)
  : M (option error) :=
  InspectValues f k [ast.ValueS v].

(** The type of the Value declared under [name] in the package of [f];
    the type assertion on a missing entry panics. *)
Definition declaredValueTyp (f : FileRef) (name : string) : M (option TypeRef) :=
  fl <- getFile f ;;
  pk <- getPkg (f_p fl) ;;
  match Data.Get (Values pk) name with
  | Some v => val <- getValue v ;; ret (v_typ val)
  | None => panic bad_assert
  end.

Definition TypeIdent (f : FileRef) (i : ast.Ident) : M (option TypeRef) :=
  s <- get ;;
  match Data.Get (BuiltinValues s) (ast.Name i) with
  | Some v => val <- getValue v ;; ret (v_typ val)
  | None =>
      r <- GetType f (ast.Name i) ;;
      match fst r with
      | Some typ => ret (Some typ)
      | None =>
          match ast.Obj i with
          | None => ret None
          | Some o =>
              match ast.ObjKindOf o, Obj_Decl W (ast.ObjDecl o) with
              | ast.Var, ast.ValueSpecN vs =>
                  err <- InspectValue f VAR vs ;;
                  match err with
                  | None => declaredValueTyp f (ast.Name i)
                  | Some _ => ret None
                  end
              | ast.Con, ast.ValueSpecN vs =>
                  err <- InspectValue f CONST vs ;;
                  match err with
                  | None => declaredValueTyp f (ast.Name i)
                  | Some _ => ret None
                  end
              | ast.Typ, ast.TypeSpecN ts =>
                  err <- InspectType f [ast.TypeS ts] ;;
                  match err with
                  | None =>
                      fl <- getFile f ;;
                      pk <- getPkg (f_p fl) ;;
                      match Data.Get (Types pk) (ast.Name i) with
                      | Some t => ret (Some t)
                      | None => panic bad_assert
                      end
                  | Some _ => ret None
                  end
              | ast.Fun, ast.FuncDeclN fd =>
                  err <- InspectFunc f fd ;;
                  match err with
                  | None =>
                      fl <- getFile f ;;
                      pk <- getPkg (f_p fl) ;;
                      match Data.Get (Funcs pk) (ast.Name i) with
                      | Some fn => fnc <- getFunc fn ;; ret (fn_typ fnc)
                      | None => panic bad_assert
                      end
                  | Some _ => ret None
                  end
              | ast.Var, _ | ast.Con, _ | ast.Typ, _ | ast.Fun, _ =>
                  panic bad_assert
              | _, _ => ret None
              end
          end
      end
  end.

Definition typePointer (f : FileRef) (t : option TypeRef) : M (option TypeRef) :=
  tr <- deref t ;;
  ty <- getType tr ;;
  let n := String "*" (t_name ty) in
  fl <- getFile f ;;
  pk <- getPkg (f_p fl) ;;
  match Data.Get (Types pk) n with
  | Some t' => ret (Some t')
  | None =>
      typ <- newType (fun typ =>
               mkType (t_file ty) (String "*" (t_name ty)) POINTER
                      (Some (PointerObj typ tr))) ;;
      setPkg (f_p fl) (pkg_addType n typ) ;;;
      ret (Some typ)
  end.

Definition TypePointer (f : FileRef) (X : ast.Expr) : M (option TypeRef) :=
  t <- self f X ;; typePointer f t.

Definition TypeUnary (f : FileRef) (Op : token.Token) (X : ast.Expr)
  : M (option TypeRef) :=
  match Op with
  | token.AND => t <- self f X ;; typePointer f t
  | _ => ret None
  end.

Definition TypeBinary (f : FileRef) (X Y : ast.Expr) : M (option TypeRef) :=
  let x := match X with ast.ParenExpr x' => x' | _ => X end in
  match x with
  | ast.BasicLit _ _ => self f Y
  | _ => self f x
  end.

Definition TypeCall (f : FileRef) (Fun : ast.Expr) : M (option TypeRef) :=
  self f Fun.

(** [to.Add(t)], where [to] is what one of the two fields of the Func
    [fn] holds: a pointer to the container of that field, or nil.  No
    code assigns to these fields, so the field is read when the call is
    made.  The key of a Type is its name. *)
Definition paramsAdd (fn : FuncRef) (side : Side) (t : option TypeRef) : M unit :=
  fnc <- getFunc fn ;;
  match func_list side fnc with
  | None => on_nil (Data_Add_nil W t)
  | Some _ =>
      tr <- deref t ;;
      ty <- getType tr ;;
      setFunc fn (func_add side (t_name ty) tr)
  end.

(** [for range field.Names { to.Add(t) }] *)
Fixpoint TypeFuncParams_names (names : list ast.Ident) (fn : FuncRef) (side : Side)
         (t : option TypeRef) : M unit :=
  match names with
  | [] => ret tt
  | _ :: rest => paramsAdd fn side t ;;; TypeFuncParams_names rest fn side t
  end.

Fixpoint TypeFuncParams_range (f : FileRef) (fields : list ast.Field)
         (fn : FuncRef) (side : Side) : M unit :=
  match fields with
  | [] => ret tt
  | field :: rest =>
      t <- self f (ast.FieldType field) ;;
      TypeFuncParams_names (ast.FieldNames field) fn side t ;;;
      TypeFuncParams_range f rest fn side
  end.

Definition TypeFuncParams (f : FileRef) (from : option (list ast.Field))
           (fn : FuncRef) (side : Side) : M unit :=
  match from with
  | Some fields => TypeFuncParams_range f fields fn side
  | None => ret tt
  end.

(** The new Func is [&Func{file: f}]: its two lists are nil, and nothing
    attaches a container to them. *)
Definition TypeFunc (f : FileRef) (Params Results : option (list ast.Field))
  : M (option TypeRef) :=
  fnc <- newFunc (mkFunc f None None None) ;;
  typ <- newType (fun _ => mkType (Some f) EmptyString FUNC (Some (FuncObj fnc))) ;;
  setFunc fnc (func_setTyp typ) ;;;
  TypeFuncParams f Params fnc In_ ;;;
  TypeFuncParams f Results fnc Out_ ;;;
  ret (Some typ).

(** What the three branches of [TypeArray] share: the element Type is
    dereferenced for its name after the length has been looked at. *)
Definition arrayType (f : FileRef) (elem : option TypeRef) (kind : Kind)
           (prefix : string) (len : Z) : M (option TypeRef) :=
  e <- deref elem ;;
  ety <- getType e ;;
  typ <- newType (fun typ =>
           mkType (Some f) (String.append prefix (t_name ety)) kind
                  (Some (ArrayObj typ e len))) ;;
  ret (Some typ).

Definition TypeArray (f : FileRef) (Len : option ast.Expr) (Elt : ast.Expr)
  : M (option TypeRef) :=
  elem <- self f Elt ;;
  match Len with
  | None => arrayType f elem SLICE "[]" 0%Z
  | Some (ast.Ellipsis _) => arrayType f elem ELIPS "..." 0%Z
  | Some (ast.BasicLit _ l) =>
      arrayType f elem ARRAY (String.append "[" (String.append l "]")) (strconv.Atoi l)
  | Some _ => panic bad_assert
  end.

Definition TypeMap (f : FileRef) (Key Value : ast.Expr) : M (option TypeRef) :=
  key <- self f Key ;;
  elem <- self f Value ;;
  k <- deref key ;;
  kty <- getType k ;;
  e <- deref elem ;;
  ety <- getType e ;;
  typ <- newType (fun typ =>
           mkType (Some f)
                  (String.append "map[" (String.append (t_name kty)
                                           (String.append "]" (t_name ety))))
                  MAP (Some (MapObj typ k e))) ;;
  ret (Some typ).

(** [NewStruct] lies outside the verified sources; its result is kept
    as a payload that knows its Type and has no fields. *)
Definition TypeStruct (f : FileRef) : M (option TypeRef) :=
  typ <- newType (fun typ => mkType (Some f) EmptyString STRUCT (Some (StructObj typ))) ;;
  ret (Some typ).

(** The body of [TypeExpr]. *)
Definition TypeExpr_body (f : FileRef) (e : ast.Expr) : M (option TypeRef) :=
  match e with
  | ast.BasicLit Kind _ => ret (TypeToken W Kind)
  | ast.ParenExpr X => self f X
  | ast.IdentExpr i => TypeIdent f i
  | ast.StarExpr X => TypePointer f X
  | ast.UnaryExpr Op X => TypeUnary f Op X
  | ast.BinaryExpr X _ Y => TypeBinary f X Y
  | ast.CallExpr Fun _ => TypeCall f Fun
  | ast.FuncLit Params Results => TypeFunc f Params Results
  | ast.CompositeLit (Some (ast.IdentExpr c)) _ => TypeIdent f c
  | ast.CompositeLit (Some (ast.ArrayType Len Elt)) _ => TypeArray f Len Elt
  | ast.CompositeLit (Some (ast.MapType Key Value)) _ => TypeMap f Key Value
  | ast.CompositeLit (Some (ast.StructType _)) _ => TypeStruct f
  | _ => ret None
  end.

End Evaluator.

(** [TypeExpr] with a bound on the depth of re-entrant calls. *)
Fixpoint TypeExpr (fuel : nat) (f : FileRef) (e : ast.Expr) : M (option TypeRef) :=
  match fuel with
  | 0 => fun _ => OutOfFuel
  | S fuel' => TypeExpr_body (TypeExpr fuel') f e
  end.

End Engine.

Section Drivers.

Context (W : World).

(** The loop of [File.Inspect] over the declarations; [err] is
    overwritten by each routed declaration. *)
Fixpoint File_Inspect_range (fuel : nat) (f : FileRef) (decls : list ast.Decl)
         (err : option error) : M (option error) :=
  match decls with
  | [] => ret err
  | d :: rest =>
      err' <- match d with
              | ast.FuncD decl => InspectFunc f decl
              | ast.GenD token.CONST specs => InspectValues W (TypeExpr W fuel) f CONST specs
              | ast.GenD token.VAR specs => InspectValues W (TypeExpr W fuel) f VAR specs
              | ast.GenD token.TYPE specs => InspectType f specs
              | ast.GenD token.IMPORT specs => InspectImports f specs
              | _ => ret err
              end ;;
      File_Inspect_range fuel f rest err'
  end.

Definition File_Inspect (fuel : nat) (f : FileRef) : M (option error) :=
  fl <- getFile f ;;
  match f_t fl with
  | Some t => File_Inspect_range fuel f (ast.Decls t) None
  | None => ret None
  end.

Fixpoint Inspect_range (fuel : nat) (fs : list FileRef) : M flow :=
  match fs with
  | [] => ret Next
  | f :: rest =>
      err <- File_Inspect fuel f ;;
      match err with
      | Some e => ret (Return (Some e))
      | None => Inspect_range fuel rest
      end
  end.

(** [Inspect(PkgPath)]: the package, or an error. *)
Definition Inspect (fuel : nat) (PkgPath : string) : M (option PkgRef * option error) :=
  p <- NewPackage PkgPath ;;
  err <- Parse W p ;;
  match err with
  | Some e => ret (None, Some e)
  | None =>
      pk <- getPkg p ;;
      r <- Inspect_range fuel (Data.List (Files pk)) ;;
      match r with
      | Return e => ret (None, e)
      | Next => setPkg p (pkg_setI true) ;;; ret (Some p, None)
      end
  end.

End Drivers.

(** ** A concrete world, for running the code *)

Module Sample.

Definition int_t : TypeRef := 0.
Definition float64_t : TypeRef := 1.
Definition string_t : TypeRef := 2.
Definition rune_t : TypeRef := 3.
Definition complex128_t : TypeRef := 4.
Definition bool_t : TypeRef := 5.

Definition builtin (n : string) : Type_ := mkType None n BASIC None.

Definition builtinTypes : Data.t TypeRef :=
  [("int", int_t); ("float64", float64_t); ("string", string_t);
   ("rune", rune_t); ("complex128", complex128_t); ("bool", bool_t)].

Definition builtinValues : Data.t ValueRef := [("true", 0); ("false", 1)].

(** The builtin Type of each literal kind. *)
Definition typeToken (k : token.Token) : option TypeRef :=
  match k with
  | token.INT => Some int_t
  | token.FLOAT => Some float64_t
  | token.STRING => Some string_t
  | token.CHAR => Some rune_t
  | token.IMAG => Some complex128_t
  | _ => None
  end.

(** One package [p] (address 0) with two files [a] and [b] (addresses 0
    and 1), nothing inspected yet. *)
Definition start : State :=
  mkState
    [mkPackage "p" "p" [("a", 0); ("b", 1)] Data.empty Data.empty Data.empty Data.empty false]
    [mkFile 0 "a" (Some (ast.Build_File "p" [])) Data.empty;
     mkFile 0 "b" (Some (ast.Build_File "p" [])) Data.empty]
    (builtin <$> ["int"; "float64"; "string"; "rune"; "complex128"; "bool"])
    [mkValue None CONST "true" (Some bool_t); mkValue None CONST "false" (Some bool_t)]
    [] []
    builtinTypes builtinValues.

(** Trees come from [Parse], which asks the parser to skip object
    resolution: identifiers carry no [Obj]. *)
Definition ident (n : string) : ast.Ident := ast.Build_Ident n None.
Definition name (n : string) : ast.Expr := ast.IdentExpr (ident n).
Definition lit (k : token.Token) (v : string) : ast.Expr := ast.BasicLit k v.

Definition world : World :=
  mkWorld (fun _ => []) (fun _ => (None, Some "no such file")) (fun _ => ast.OtherN)
          typeToken (fun _ => Some nil_deref) (Some nil_deref).

End Sample.

(** ** Observations, specification predicates and sample inputs *)

(** What is observed of an outcome. *)
Definition result {A : Type} (o : outcome A) : option A :=
  match o with Done a _ => Some a | _ => None end.
Definition final {A : Type} (o : outcome A) : option State :=
  match o with Done _ s => Some s | _ => None end.

(** The Types table of package [p]. *)
Definition typesOf (p : PkgRef) (s : State) : option (Data.t TypeRef) :=
  Types <$> pkgs s !! p.

Definition twice {A : Type} (m : M A) : M (A * A) :=
  a <- m ;; b <- m ;; ret (a, b).

Definition pkg_setFiles (d : Data.t FileRef) (p : Package) : Package :=
  mkPackage (Path p) (Name p) d (Types p) (Values p) (Funcs p) (Imports p) (p_i p).

(** The File that [Parse] leaves for the path [f] with name [n]. *)
Definition parsed_file (W : World) (p : PkgRef) (f n : string) : File :=
  mkFile p n (fst (parser_ParseFile W f)) Data.empty.

Definition parse_ok (W : World) (f : string) : Prop :=
  snd (parser_ParseFile W f) = None.

(** Every store but [pkgs] and [files] is the same. *)
Definition same_rest (s s' : State) : Prop :=
  types s' = types s /\ values s' = values s /\ imports s' = imports s /\
  funcs s' = funcs s /\ BuiltinTypes s' = BuiltinTypes s /\
  BuiltinValues s' = BuiltinValues s.

(** The state after an iteration of [Parse] on the new file [f], named
    [n], of package [p]. *)
Definition added (W : World) (p : PkgRef) (f n : string) (pk : Package) (s : State)
  : State :=
  mkState (<[p := pkg_setFiles (Files pk ++ [(n, List.length (files s))]) pk]> (pkgs s))
          (files s ++ [parsed_file W p f n])
          (types s) (values s) (imports s) (funcs s) (BuiltinTypes s) (BuiltinValues s).

(** A package directory [q] with three files, the second of which does
    not parse; the package has just been created. *)
Module SampleDir.

Definition tree : ast.File := ast.Build_File "q" [].

Definition files_of (path : string) : list string :=
  if String.eqb path "q" then ["q/a.go"; "q/b.go"; "q/c.go"] else [].

Definition parse (f : string) : option ast.File * option string :=
  if String.eqb f "q/a.go" then (Some tree, None)
  else if String.eqb f "q/b.go" then (Some tree, Some "expected declaration")
  else if String.eqb f "q/c.go" then (Some tree, None)
  else (None, Some "no such file").

Definition world : World :=
  mkWorld files_of parse (fun _ => ast.OtherN) Sample.typeToken
          (fun _ => Some nil_deref) (Some nil_deref).

Definition empty : State :=
  mkState [] [] [] [] [] [] Data.empty Data.empty.

Definition created : State :=
  match NewPackage "q" empty with
  | Done _ s => s
  | _ => empty
  end.

End SampleDir.

(** The keys of the Files table of package [p], and its name. *)
Definition fileNamesOf (p : PkgRef) (s : State) : option (list string) :=
  (fun pk => Data.Keys (Files pk)) <$> pkgs s !! p.
Definition nameOf (p : PkgRef) (s : State) : option string :=
  Name <$> pkgs s !! p.

(** A name is qualified when it contains the separator. *)
Fixpoint contains (c : ascii) (s : string) : bool :=
  match s with
  | EmptyString => false
  | String a s' => Ascii.eqb a c || contains c s'
  end.

(** The ways a qualified name fails to resolve: its prefix is not bound
    in the file's Import table; or it is, the suffix is not in the Types
    table of the imported package, [Parse] of that package succeeds, and
    the suffix is not in its Types table afterwards. *)
Definition unresolved_import (W : World) (fl : File) (name : string) (s s' : State) : Prop :=
  match strings.Split name "." with
  | part0 :: part1 :: _ =>
      match Data.Get (f_i fl) part0 with
      | None => s' = s
      | Some imp =>
          exists i q qk qk',
            imports s !! imp = Some i /\ i_pkg i = Some q /\
            pkgs s !! q = Some qk /\ Data.Get (Types qk) part1 = None /\
            Parse W q s = Done None s' /\
            pkgs s' !! q = Some qk' /\ Data.Get (Types qk') part1 = None
      end
  | _ => False
  end.

(** [TypeExpr] gives the outcome [o] on [e] when the bound on re-entrant
    calls is large enough. *)
Definition evaluates (W : World) (f : FileRef) (e : ast.Expr) (s : State)
           (o : outcome (option TypeRef)) : Prop :=
  exists fuel, TypeExpr W fuel f e s = o /\ o <> OutOfFuel.

Definition isBasicLit (e : ast.Expr) : bool :=
  match e with ast.BasicLit _ _ => true | _ => false end.

(** The left operand without one enclosing pair of parentheses. *)
Definition unparen (e : ast.Expr) : ast.Expr :=
  match e with ast.ParenExpr x => x | _ => e end.

(** A declaration [var x float64], reached through the [Obj] of the
    identifier [x]. *)
Module SampleObj.

Definition x_spec : ast.ValueSpec :=
  ast.Build_ValueSpec [Sample.ident "x"] (Some (Sample.name "float64")) [].

Definition world : World :=
  mkWorld (fun _ => []) (fun _ => (None, Some "no such file"))
          (fun _ => ast.ValueSpecN x_spec) Sample.typeToken
          (fun _ => Some nil_deref) (Some nil_deref).

Definition x : ast.Expr :=
  ast.IdentExpr (ast.Build_Ident "x" (Some (ast.Build_Object ast.Var 0))).

End SampleObj.

Module SampleImport.

Definition quote : ascii := "034"%char.

(** The path of an import spec is the literal as written, quotes
    included. *)
Definition quoted (s : string) : string :=
  String quote (String.append s (String quote EmptyString)).

Definition plain : ast.Spec :=
  ast.ImportS (ast.Build_ImportSpec None (quoted "fmt")).

Definition aliased : ast.Spec :=
  ast.ImportS (ast.Build_ImportSpec (Some (Sample.ident "f")) (quoted "fmt")).

End SampleImport.

(** The Import table of file [f], resolved to the Imports themselves. *)
Definition importsOf (f : FileRef) (s : State) : option (list (string * option Import)) :=
  (fun fl => prod_map id (fun i => imports s !! i) <$> f_i fl) <$> files s !! f.

(** The Types that the names of a list have in the package of file [f],
    read after the computation [m]. *)
Fixpoint typesOfNames (f : FileRef) (names : list string) : M (list (option TypeRef)) :=
  match names with
  | [] => ret []
  | n :: rest =>
      t <- declaredValueTyp f n ;;
      ts <- typesOfNames f rest ;;
      ret (t :: ts)
  end.

Definition thenTypes {A : Type} (m : M A) (f : FileRef) (names : list string)
  : M (list (option TypeRef)) :=
  m ;;; typesOfNames f names.

Module SampleCall.

(** [func f() (int, string)] *)
Definition results : list ast.Field :=
  [ast.mkField [] (Sample.name "int"); ast.mkField [] (Sample.name "string")].

Definition func_f : ast.FuncDecl :=
  ast.Build_FuncDecl (Sample.ident "f") (Some []) (Some results).

Definition decl_f : ast.Decl := ast.FuncD func_f.

Definition var_ab (call : ast.Expr) : ast.Decl :=
  ast.GenD token.VAR
    [ast.ValueS (ast.Build_ValueSpec [Sample.ident "a"; Sample.ident "b"] None [call])].

(** [var a, b = f()] *)
Definition call_f : ast.Expr := ast.CallExpr (Sample.name "f") [].

(** The same call in a tree with object resolution: the identifier [f]
    points to its declaration. *)
Definition call_f_resolved : ast.Expr :=
  ast.CallExpr (ast.IdentExpr (ast.Build_Ident "f" (Some (ast.Build_Object ast.Fun 0)))) [].

Definition world_resolved : World :=
  mkWorld (fun _ => []) (fun _ => (None, Some "no such file"))
        (fun _ => ast.FuncDeclN func_f) Sample.typeToken
        (fun _ => Some nil_deref) (Some nil_deref).

(** [func() (int, string) {...}()] *)
Definition call_lit : ast.Expr := ast.CallExpr (ast.FuncLit (Some []) (Some results)) [].

(** The sample package with the declarations of [tree] in its file. *)
Definition state (decls : list ast.Decl) : State :=
  with_files (alter (file_setT (Some (ast.Build_File "p" decls))) 0) Sample.start.

End SampleCall.

Module SampleConst.

Definition group (n : string) (typ : option ast.Expr) (values : list ast.Expr) : ast.Spec :=
  ast.ValueS (ast.Build_ValueSpec [Sample.ident n] typ values).

(** [const ( A float64 = 1; B = 2; C = 3 )] *)
Definition with_initializers : list ast.Spec :=
  [group "A" (Some (Sample.name "float64")) [Sample.lit token.INT "1"];
   group "B" None [Sample.lit token.INT "2"];
   group "C" None [Sample.lit token.INT "3"]].

(** [const ( A int = 1; B = 2; C = 3 )] *)
Definition int_with_initializers : list ast.Spec :=
  [group "A" (Some (Sample.name "int")) [Sample.lit token.INT "1"];
   group "B" None [Sample.lit token.INT "2"];
   group "C" None [Sample.lit token.INT "3"]].

End SampleConst.

(** The name [n] is declared in the package of file [f] with Type [t]. *)
Definition declared (f : FileRef) (n : string) (t : TypeRef) (s : State) : Prop :=
  exists fl pk v val,
    files s !! f = Some fl /\ pkgs s !! f_p fl = Some pk /\
    Data.Get (Values pk) n = Some v /\ values s !! v = Some val /\
    v_typ val = Some t.

(** The state after [InspectValues] has created the Value [n] of Type
    [t]: one more Value, entered in the Values table of the package. *)
Definition declare (f : FileRef) (k : ValueKind) (n : string) (t : TypeRef)
           (fl : File) (pk : Package) (s : State) : State :=
  mkState (<[f_p fl := pkg_addValue n (List.length (values s)) pk]> (pkgs s))
          (files s) (types s)
          (values s ++ [mkValue (Some f) k n (Some t)])
          (imports s) (funcs s) (BuiltinTypes s) (BuiltinValues s).

(** A group of names with neither type nor initializer. *)
Definition bares (ns : list ast.Ident) : ast.Spec :=
  ast.ValueS (ast.Build_ValueSpec ns None []).

(** From [s] to [s'] the first [k] Funcs are untouched and the store of
    Types has only grown at its end. *)
Definition frame (k : nat) (s s' : State) : Prop :=
  take k (funcs s') = take k (funcs s) /\ types s `prefix_of` types s'.

(** A computation that, started with at least [k] Funcs, leaves the first
    [k] alone and never changes a Type. *)
Definition keeps {A : Type} (k : nat) (m : M A) : Prop :=
  forall s a s', m s = Done a s' -> k <= List.length (funcs s) -> frame k s s'.




(** ** Further sample inputs and predicates *)

(** A directory whose only file has no dot in its name. *)
Module SampleNoDot.

Definition world : World :=
  mkWorld (fun _ => ["q/LICENSE"]) SampleDir.parse (fun _ => ast.OtherN) Sample.typeToken
          (fun _ => Some nil_deref) (Some nil_deref).

End SampleNoDot.

(** A directory [q] with two files that parse. *)
Module SampleGood.

Definition files_of (path : string) : list string :=
  if String.eqb path "q" then ["q/a.go"; "q/c.go"] else [].

Definition world : World :=
  mkWorld files_of SampleDir.parse (fun _ => ast.OtherN) Sample.typeToken
          (fun _ => Some nil_deref) (Some nil_deref).

End SampleGood.

(** [pk'] is [pk] grown: the same path, every entry of the Types table
    still there, every name of the Values table still declared. *)
Definition pkg_le (pk pk' : Package) : Prop :=
  Path pk' = Path pk /\
  (forall n r, Data.Get (Types pk) n = Some r -> Data.Get (Types pk') n = Some r) /\
  (forall n, is_Some (Data.Get (Values pk) n) -> is_Some (Data.Get (Values pk') n)).

(** From [s] to [s'] the first [kv] Values are untouched, every file has
    kept its package, name and Import table, every package has only
    grown, and the Imports and the builtin tables are the same. *)
Definition extends (kv : nat) (s s' : State) : Prop :=
  take kv (values s') = take kv (values s) /\
  (forall f x, files s !! f = Some x ->
               exists x', files s' !! f = Some x' /\
                          f_p x' = f_p x /\ f_name x' = f_name x /\ f_i x' = f_i x) /\
  (forall q pk, pkgs s !! q = Some pk ->
                exists pk', pkgs s' !! q = Some pk' /\ pkg_le pk pk') /\
  imports s' = imports s /\
  BuiltinTypes s' = BuiltinTypes s /\
  BuiltinValues s' = BuiltinValues s.

(** A computation that, started with at least [kv] Values, only
    [extends] the state. *)
Definition holds {A : Type} (kv : nat) (m : M A) : Prop :=
  forall s a s', m s = Done a s' -> kv <= List.length (values s) -> extends kv s s'.

(** Every name of the value spec [sp] is declared in the package of
    file [f]. *)
Definition all_declared (f : FileRef) (sp : ast.Spec) (s : State) : Prop :=
  exists vs fl pk,
    sp = ast.ValueS vs /\ files s !! f = Some fl /\ pkgs s !! f_p fl = Some pk /\
    Forall (fun n => is_Some (Data.Get (Values pk) (ast.Name n))) (ast.Names vs).

(** The sample package after [var x float64] has been inspected in its
    file [a]. *)
Module SampleDeclared.

Definition var_x : list ast.Spec :=
  [SampleConst.group "x" (Some (Sample.name "float64")) []].

Definition state : State :=
  match InspectValues Sample.world (TypeExpr Sample.world 2) 0 VAR var_x Sample.start with
  | Done _ s => s
  | _ => Sample.start
  end.

End SampleDeclared.

(** The name [n] is in the Values table of the package of file [f]. *)
Definition is_declared (f : FileRef) (n : string) (s : State) : Prop :=
  exists fl pk,
    files s !! f = Some fl /\ pkgs s !! f_p fl = Some pk /\
    is_Some (Data.Get (Values pk) n).

(** The declarations that [File.Inspect] routes to [InspectValues] or
    [InspectImports]; every other declaration is routed to a function
    with an empty body, or to none. *)
Definition recorded (d : ast.Decl) : bool :=
  match d with
  | ast.GenD token.CONST _ | ast.GenD token.VAR _ | ast.GenD token.IMPORT _ => true
  | _ => false
  end.

(** No identifier that [TypeExpr] looks at in [e] carries a link to its
    declaration, as in the trees that [Parse] asks the parser for. *)
Fixpoint unlinked (e : ast.Expr) : bool :=
  match e with
  | ast.ParenExpr X | ast.StarExpr X | ast.UnaryExpr _ X => unlinked X
  | ast.IdentExpr i => bool_decide (ast.Obj i = None)
  | ast.BinaryExpr X _ Y => unlinked X && unlinked Y
  | ast.CallExpr Fun _ => unlinked Fun
  | ast.FuncLit Params Results =>
      let fields (from : option (list ast.Field)) :=
        match from with
        | Some l => forallb (fun fld => match fld with ast.mkField _ t => unlinked t end) l
        | None => true
        end in
      fields Params && fields Results
  | ast.CompositeLit (Some (ast.IdentExpr c)) _ => bool_decide (ast.Obj c = None)
  | ast.CompositeLit (Some (ast.ArrayType _ Elt)) _ => unlinked Elt
  | ast.CompositeLit (Some (ast.MapType Key Value)) _ => unlinked Key && unlinked Value
  | _ => true
  end.

(** How deep the expressions that [TypeExpr] looks at are nested in
    [e]. *)
Fixpoint depth (e : ast.Expr) : nat :=
  match e with
  | ast.ParenExpr X | ast.StarExpr X | ast.UnaryExpr _ X => S (depth X)
  | ast.BinaryExpr X _ Y => S (Nat.max (depth X) (depth Y))
  | ast.CallExpr Fun _ => S (depth Fun)
  | ast.FuncLit Params Results =>
      let fields (from : option (list ast.Field)) :=
        match from with
        | Some l =>
            foldr (fun fld acc => Nat.max (match fld with ast.mkField _ t => depth t end) acc)
                  0 l
        | None => 0
        end in
      S (Nat.max (fields Params) (fields Results))
  | ast.CompositeLit (Some (ast.ArrayType _ Elt)) _ => S (depth Elt)
  | ast.CompositeLit (Some (ast.MapType Key Value)) _ =>
      S (Nat.max (depth Key) (depth Value))
  | _ => 0
  end.

(** A computation that returns or panics, whatever the state. *)
Definition live {A : Type} (m : M A) : Prop := forall s, m s <> OutOfFuel.

(** The Type [typ] is the FUNC Type of file [f] whose payload is the
    Func [fn], and [fn] points back to [typ]. *)
Definition linked (f : FileRef) (fn : FuncRef) (typ : TypeRef) (s : State) : Prop :=
  types s !! typ = Some (mkType (Some f) EmptyString FUNC (Some (FuncObj fn))) /\
  exists fnc, funcs s !! fn = Some fnc /\ fn_file fnc = f /\ fn_typ fnc = Some typ.

(** Both lists of the Func [fn] are nil. *)
Definition nil_lists (fn : FuncRef) (s : State) : Prop :=
  exists fnc, funcs s !! fn = Some fnc /\ fn_in fnc = None /\ fn_out fnc = None.

(** ** Reasoning principles *)

(** *** The container *)

Section DataFacts.

Context {A : Type}.
Implicit Types (d : Data.t A) (k : string) (v : A).

Lemma Data_Get_Add_eq d k v : Data.Get (Data.Add d k v) k = Some v.
Proof.
  induction d as [|[k' v'] d IH]; simpl.
  - by rewrite String.eqb_refl.
  - destruct (String.eqb k' k) eqn:E; simpl.
    + by rewrite String.eqb_refl.
    + by rewrite E.
Qed.

Lemma Data_Get_Add_ne d k k' v :
  k <> k' -> Data.Get (Data.Add d k v) k' = Data.Get d k'.
Proof.
  intros Hne. induction d as [|[k0 v0] d IH]; simpl.
  - destruct (String.eqb k k') eqn:E; [|done].
    by apply String.eqb_eq in E.
  - destruct (String.eqb k0 k) eqn:E; simpl.
    + apply String.eqb_eq in E. subst k0.
      destruct (String.eqb k k') eqn:E'; [|done].
      by apply String.eqb_eq in E'.
    + destruct (String.eqb k0 k'); [done|]. apply IH.
Qed.

Lemma Data_Add_fresh d k v :
  Data.Get d k = None -> Data.Add d k v = d ++ [(k, v)].
Proof.
  induction d as [|[k0 v0] d IH]; simpl; [done|].
  destruct (String.eqb k0 k); [done|]. intros H. by rewrite IH.
Qed.

Lemma Data_Get_None_Keys d k : Data.Get d k = None <-> k ∉ Data.Keys d.
Proof.
  induction d as [|[k0 v0] d IH]; simpl.
  - split; [intros _; apply not_elem_of_nil | done].
  - rewrite not_elem_of_cons. destruct (String.eqb k0 k) eqn:E.
    + apply String.eqb_eq in E. subst. split; [done | intros [? _]; done].
    + apply String.eqb_neq in E. rewrite IH. split; [intros ?; split; congruence | tauto].
Qed.

Lemma Data_Get_app_fresh d d' k :
  Data.Get d k = None -> Data.Get (d ++ d') k = Data.Get d' k.
Proof.
  induction d as [|[k0 v0] d IH]; simpl; [done|].
  destruct (String.eqb k0 k); [done | apply IH].
Qed.

Lemma Data_Get_app_Some d d' k v :
  Data.Get d k = Some v -> Data.Get (d ++ d') k = Some v.
Proof.
  induction d as [|[k0 v0] d IH]; simpl; [done|].
  destruct (String.eqb k0 k); [done | apply IH].
Qed.

End DataFacts.

(** *** Running monadic code one step at a time *)

Section Run.

Context {A B : Type}.
Implicit Types (k : A -> M B) (s : State).

Lemma bind_Done (m : M A) k s a s1 : m s = Done a s1 -> bind m k s = k a s1.
Proof. unfold bind. by intros ->. Qed.

Lemma bind_Panic (m : M A) k s msg : m s = Panic msg -> bind m k s = Panic msg.
Proof. unfold bind. by intros ->. Qed.

Lemma bind_inv (m : M A) k s (b : B) s2 :
  bind m k s = Done b s2 -> exists a s1, m s = Done a s1 /\ k a s1 = Done b s2.
Proof. unfold bind. destruct (m s) as [a s1| |]; [eauto | done | done]. Qed.

Lemma bind_assoc {C : Type} (m : M C) (g : C -> M A) k s :
  bind (bind m g) k s = bind m (fun c => bind (g c) k) s.
Proof. unfold bind. by destruct (m s). Qed.

Lemma run_ret (a : A) k s : bind (ret a) k s = k a s.
Proof. done. Qed.

Lemma run_panic msg k s : bind (panic msg) k s = Panic msg.
Proof. done. Qed.

Lemma run_deref (o : option A) k s :
  bind (deref o) k s = match o with Some a => k a s | None => Panic nil_deref end.
Proof. by destruct o. Qed.

End Run.

Section RunStores.

Context {B : Type}.
Implicit Types (s : State).

Lemma run_get (k : State -> M B) s : bind get k s = k s s.
Proof. done. Qed.

Lemma run_modify g (k : unit -> M B) s : bind (modify g) k s = k tt (g s).
Proof. done. Qed.

Lemma run_getPkg p (k : Package -> M B) s :
  bind (getPkg p) k s = match pkgs s !! p with Some x => k x s | None => Panic nil_deref end.
Proof. unfold getPkg, bind, get. simpl. by destruct (pkgs s !! p). Qed.

Lemma run_getFile f (k : File -> M B) s :
  bind (getFile f) k s = match files s !! f with Some x => k x s | None => Panic nil_deref end.
Proof. unfold getFile, bind, get. simpl. by destruct (files s !! f). Qed.

Lemma run_getType t (k : Type_ -> M B) s :
  bind (getType t) k s = match types s !! t with Some x => k x s | None => Panic nil_deref end.
Proof. unfold getType, bind, get. simpl. by destruct (types s !! t). Qed.

Lemma run_getValue v (k : Value -> M B) s :
  bind (getValue v) k s = match values s !! v with Some x => k x s | None => Panic nil_deref end.
Proof. unfold getValue, bind, get. simpl. by destruct (values s !! v). Qed.

Lemma run_getImport i (k : Import -> M B) s :
  bind (getImport i) k s = match imports s !! i with Some x => k x s | None => Panic nil_deref end.
Proof. unfold getImport, bind, get. simpl. by destruct (imports s !! i). Qed.

Lemma run_getFunc fn (k : Func -> M B) s :
  bind (getFunc fn) k s = match funcs s !! fn with Some x => k x s | None => Panic nil_deref end.
Proof. unfold getFunc, bind, get. simpl. by destruct (funcs s !! fn). Qed.

Lemma run_newType x (k : TypeRef -> M B) s :
  bind (newType x) k s
  = k (List.length (types s)) (with_types (fun l => l ++ [x (List.length (types s))]) s).
Proof. done. Qed.

Lemma run_newValue x (k : ValueRef -> M B) s :
  bind (newValue x) k s = k (List.length (values s)) (with_values (fun l => l ++ [x]) s).
Proof. done. Qed.

Lemma run_newFile x (k : FileRef -> M B) s :
  bind (newFile x) k s = k (List.length (files s)) (with_files (fun l => l ++ [x]) s).
Proof. done. Qed.

Lemma run_newPkg x (k : PkgRef -> M B) s :
  bind (newPkg x) k s = k (List.length (pkgs s)) (with_pkgs (fun l => l ++ [x]) s).
Proof. done. Qed.

Lemma run_newImport x (k : ImportRef -> M B) s :
  bind (newImport x) k s = k (List.length (imports s)) (with_imports (fun l => l ++ [x]) s).
Proof. done. Qed.

Lemma run_newFunc x (k : FuncRef -> M B) s :
  bind (newFunc x) k s = k (List.length (funcs s)) (with_funcs (fun l => l ++ [x]) s).
Proof. done. Qed.

End RunStores.

Create Rewrite HintDb run.
#[local] Hint Rewrite @run_ret @run_panic @run_deref @run_get @run_modify
  @run_getPkg @run_getFile @run_getType @run_getValue @run_getImport @run_getFunc
  @run_newType @run_newValue @run_newFile @run_newPkg @run_newImport @run_newFunc
  @bind_assoc : run.

(** Projections of an updated state. *)
Ltac stores :=
  cbn [pkgs files types values imports funcs BuiltinTypes BuiltinValues
       with_pkgs with_files with_types with_values with_imports with_funcs] in *.

(** One round of symbolic execution: step the monad, then look at the
    stores. *)
Ltac run :=
  repeat (progress (autorewrite with run; stores));
  unfold setPkg, setFile, setValue, setImport, setFunc, NewPackage, NewFile;
  repeat (progress (autorewrite with run; stores)).

(** ** Pointer types are interned *)

(** C1.  For an element Type [t] and a live file [f], [typePointer]
    returns a pointer Type [r]; asking again, from [f] or from any file
    [g] of the same package, returns the same instance [r] and changes
    nothing.  The name [*T] is looked up in the package's Types table:
    when it is there the entry is returned and nothing is allocated, and
    only when it is absent is a new POINTER Type allocated at a fresh
    address and registered under that name. *)
Theorem typePointer_interned (f g : FileRef) (t : TypeRef) (s : State)
        (fl gl : File) (pk : Package) (ty : Type_) :
  files s !! f = Some fl ->
  files s !! g = Some gl ->
  f_p gl = f_p fl ->
  pkgs s !! f_p fl = Some pk ->
  types s !! t = Some ty ->
  exists r s1,
    typePointer f (Some t) s = Done (Some r) s1 /\
    typePointer f (Some t) s1 = Done (Some r) s1 /\
    typePointer g (Some t) s1 = Done (Some r) s1 /\
    match Data.Get (Types pk) (String "*" (t_name ty)) with
    | Some r0 => r = r0 /\ s1 = s
    | None =>
        r = List.length (types s) /\
        types s1 = types s ++ [mkType (t_file ty) (String "*" (t_name ty)) POINTER
                                      (Some (PointerObj r t))] /\
        pkgs s1 = alter (pkg_addType (String "*" (t_name ty)) r) (f_p fl) (pkgs s) /\
        (exists pk1, pkgs s1 !! f_p fl = Some pk1 /\
                     Data.Get (Types pk1) (String "*" (t_name ty)) = Some r)
    end.
Proof.
  intros Hf Hg Hpkg Hp Ht. unfold typePointer. run. rewrite Ht. run. rewrite Hf. run.
  rewrite Hp.
  destruct (Data.Get (Types pk) (String "*" (t_name ty))) as [r|] eqn:Hget.
  - exists r, s. split; [done|]. split; [|split; [|done]].
    + run. rewrite Ht. run. rewrite Hf. run. rewrite Hp. by rewrite Hget.
    + run. rewrite Ht. run. rewrite Hg. run. rewrite Hpkg, Hp. by rewrite Hget.
  - run. eexists _, _. split; [reflexivity|].
    assert (Hp1 : alter (pkg_addType (String "*" (t_name ty)) (List.length (types s)))
                        (f_p fl) (pkgs s) !! f_p fl
                  = Some (pkg_addType (String "*" (t_name ty)) (List.length (types s)) pk)).
    { rewrite list_lookup_alter_eq, Hp. done. }
    split; [|split; [|split; [done|split; [done|split; [done|]]]]].
    + run. rewrite lookup_app_l by (by eapply lookup_lt_Some). rewrite Ht. run.
      rewrite Hf. run. rewrite Hp1. simpl. by rewrite Data_Get_Add_eq.
    + run. rewrite lookup_app_l by (by eapply lookup_lt_Some). rewrite Ht. run.
      rewrite Hg. run. rewrite Hpkg, Hp1. simpl. by rewrite Data_Get_Add_eq.
    + eexists. split; [exact Hp1|]. simpl. apply Data_Get_Add_eq.
Qed.

Lemma typePointer_interned_witness :
  exists r s1,
    typePointer 0 (Some Sample.int_t) Sample.start = Done (Some r) s1 /\
    typePointer 0 (Some Sample.int_t) s1 = Done (Some r) s1 /\
    typePointer 1 (Some Sample.int_t) s1 = Done (Some r) s1 /\
    r = 6 /\
    types s1 = types Sample.start ++ [mkType None "*int" POINTER (Some (PointerObj r 0))] /\
    pkgs s1 = alter (pkg_addType "*int" r) 0 (pkgs Sample.start) /\
    (exists pk1, pkgs s1 !! 0 = Some pk1 /\ Data.Get (Types pk1) "*int" = Some r).
Proof.
  exact (typePointer_interned 0 1 Sample.int_t Sample.start _ _ _ _
           eq_refl eq_refl eq_refl eq_refl eq_refl).
Defined.

(** [TypePointer] and the address-of case of [TypeUnary] go through
    [typePointer], so they share its interning. *)
Lemma TypePointer_typePointer self f X s t s1 :
  self f X s = Done t s1 ->
  TypePointer self f X s = typePointer f t s1 /\
  TypeUnary self f token.AND X s = typePointer f t s1.
Proof. intros H. unfold TypePointer, TypeUnary. by rewrite !(bind_Done _ _ _ _ _ H). Qed.

(** ** Slice, array and map types are allocated afresh *)

(** [TypeArray] never looks at the package: whenever it returns, the
    Type is the one just allocated and the package tables are as the
    evaluation of the element left them. *)
Lemma TypeArray_fresh self f Len Elt s r s' :
  TypeArray self f Len Elt s = Done r s' ->
  exists elem s1,
    self f Elt s = Done elem s1 /\ r = Some (List.length (types s1)) /\
    pkgs s' = pkgs s1 /\ List.length (types s') = S (List.length (types s1)).
Proof.
  unfold TypeArray. intros H. apply bind_inv in H as (elem & s1 & He & H).
  exists elem, s1. split; [done|]. revert H.
  assert (Hshared : forall kind prefix len,
             arrayType f elem kind prefix len s1 = Done r s' ->
             r = Some (List.length (types s1)) /\ pkgs s' = pkgs s1 /\
             List.length (types s') = S (List.length (types s1))).
  { intros kind prefix len. unfold arrayType. run.
    destruct elem as [e|]; [|done]. run. destruct (types s1 !! e) as [ety|]; [|done].
    run. unfold ret. intros [= <- <-]. stores. rewrite length_app. simpl.
    split; [done | split; [done | lia]]. }
  destruct Len as [[]|]; try done; apply Hshared.
Qed.

Lemma TypeMap_fresh self f Key Value s r s' :
  TypeMap self f Key Value s = Done r s' ->
  exists key s1 elem s2,
    self f Key s = Done key s1 /\ self f Value s1 = Done elem s2 /\
    r = Some (List.length (types s2)) /\
    pkgs s' = pkgs s2 /\ List.length (types s') = S (List.length (types s2)).
Proof.
  unfold TypeMap. intros H. apply bind_inv in H as (key & s1 & Hk & H).
  apply bind_inv in H as (elem & s2 & He & H).
  exists key, s1, elem, s2. split; [done|]. split; [done|]. revert H. run.
  destruct key as [k|]; [|done]. run. destruct (types s2 !! k) as [kty|]; [|done].
  destruct elem as [e|]; [|done]. run. destruct (types s2 !! e) as [ety|]; [|done].
  run. unfold ret. intros [= <- <-]. stores. rewrite length_app. simpl.
  split; [done | split; [done | lia]].
Qed.

(** C2.  The slice literal [[]int{}] and the map literal
    [map[string]int{}] are each evaluated twice in the same file: every
    evaluation allocates a new Type (addresses 6 and 7), and the Types
    table of the package stays empty, so nothing was looked up or
    registered under [[]int] or [map[string]int].  The pointer shape is
    the only one that is interned. *)
Theorem composite_types_not_interned :
  let slice := ast.CompositeLit (Some (ast.ArrayType None (Sample.name "int"))) [] in
  let map_ := ast.CompositeLit
                (Some (ast.MapType (Sample.name "string") (Sample.name "int"))) [] in
  result (twice (TypeExpr Sample.world 2 0 slice) Sample.start) = Some (Some 6, Some 7) /\
  (final (twice (TypeExpr Sample.world 2 0 slice) Sample.start) ≫= typesOf 0) = Some [] /\
  result (twice (TypeExpr Sample.world 2 0 map_) Sample.start) = Some (Some 6, Some 7) /\
  (final (twice (TypeExpr Sample.world 2 0 map_) Sample.start) ≫= typesOf 0) = Some [] /\
  result (twice (TypeExpr Sample.world 2 0 (ast.StarExpr (Sample.name "int"))) Sample.start)
  = Some (Some 6, Some 6).
Proof. vm_compute. done. Qed.

(** ** The package loader *)

Lemma same_rest_refl s : same_rest s s.
Proof. by repeat split. Qed.

Lemma same_rest_trans s1 s2 s3 : same_rest s1 s2 -> same_rest s2 s3 -> same_rest s1 s3.
Proof.
  intros (?&?&?&?&?&?) (?&?&?&?&?&?). repeat split; congruence.
Qed.

Lemma alter_last {A : Type} (g : A -> A) (l : list A) (x : A) :
  alter g (List.length l) (l ++ [x]) = l ++ [g x].
Proof. by rewrite <- (Nat.add_0_r (List.length l)), alter_app_r. Qed.

Lemma alter_as_insert {A : Type} (g : A -> A) (l : list A) (i : nat) (x : A) :
  l !! i = Some x -> alter g i l = <[i := g x]> l.
Proof.
  intros H. apply list_eq. intros j. destruct (decide (i = j)) as [<-|Hne].
  - rewrite list_lookup_alter_eq, list_lookup_insert_eq by (by eapply lookup_lt_Some).
    by rewrite H.
  - by rewrite list_lookup_alter_ne, list_lookup_insert_ne.
Qed.

Lemma pkg_setFiles_id pk : pkg_setFiles (Files pk) pk = pk.
Proof. by destruct pk. Qed.

Section Loader.

Context (W : World) (p : PkgRef).

(** One iteration on a file that is not in the table yet. *)
Lemma Parse_range_new f rest n s pk :
  pkgs s !! p = Some pk ->
  fileName f = Some n ->
  Data.Get (Files pk) n = None ->
  Parse_range W p (f :: rest) s
  = match snd (parser_ParseFile W f) with
    | Some msg => Done (Return (Some (ParseError msg))) (added W p f n pk s)
    | None => Parse_range W p rest (added W p f n pk s)
    end.
Proof.
  intros Hp Hn Hg. cbn [Parse_range]. rewrite Hn. run. rewrite Hp, Hg. run.
  unfold added, parsed_file. destruct (parser_ParseFile W f) as [t err]. run.
  assert (Heq : forall s0,
             with_files (alter (file_setT t) (List.length (files s)))
               (with_pkgs (alter (pkg_addFile n (List.length (files s))) p)
                  (with_files (fun l => l ++ [mkFile p n None Data.empty]) s)) = s0 ->
             s0 = mkState
                    (<[p := pkg_setFiles (Files pk ++ [(n, List.length (files s))]) pk]> (pkgs s))
                    (files s ++ [mkFile p n t Data.empty])
                    (types s) (values s) (imports s) (funcs s)
                    (BuiltinTypes s) (BuiltinValues s)).
  { intros s0 <-. unfold with_files, with_pkgs. stores.
    rewrite alter_last, (alter_as_insert _ _ _ _ Hp). unfold pkg_addFile, pkg_setFiles.
    by rewrite (Data_Add_fresh _ _ _ Hg). }
  cbn [fst snd]. rewrite <- (Heq _ eq_refl). by destruct err.
Qed.

(** One iteration on a file that is in the table: [Parse] returns. *)
Lemma Parse_range_present f rest n s pk r :
  pkgs s !! p = Some pk ->
  fileName f = Some n ->
  Data.Get (Files pk) n = Some r ->
  Parse_range W p (f :: rest) s = Done (Return None) s.
Proof. intros Hp Hn Hg. cbn [Parse_range]. rewrite Hn. run. by rewrite Hp, Hg. Qed.

(** A run of new files that all parse: each gets a File at the next
    address, in order, and the loop goes on behind them. *)
Lemma Parse_range_prefix pre : forall ns s pk,
  pkgs s !! p = Some pk ->
  Forall2 (fun f n => fileName f = Some n) pre ns ->
  NoDup ns ->
  Forall (fun n => Data.Get (Files pk) n = None) ns ->
  Forall (parse_ok W) pre ->
  exists s1,
    (forall rest, Parse_range W p (pre ++ rest) s = Parse_range W p rest s1) /\
    pkgs s1 = <[p := pkg_setFiles
                        (Files pk ++ zip ns (seq (List.length (files s)) (List.length ns)))
                        pk]> (pkgs s) /\
    files s1 = files s ++ zip_with (parsed_file W p) pre ns /\
    same_rest s s1.
Proof.
  induction pre as [|f pre IH]; intros ns s pk Hp Hns Hnd Habs Hok.
  - apply Forall2_nil_inv_l in Hns as ->. exists s. simpl.
    rewrite !app_nil_r, pkg_setFiles_id, list_insert_id by done.
    split; [done|]. split; [done|]. split; [done | apply same_rest_refl].
  - apply Forall2_cons_inv_l in Hns as (n & ns' & Hn & Hns & ->).
    apply NoDup_cons in Hnd as [Hnin Hnd].
    apply Forall_cons in Habs as [Hg Habs]. apply Forall_cons in Hok as [Hokf Hok].
    set (pk1 := pkg_setFiles (Files pk ++ [(n, List.length (files s))]) pk).
    set (s1 := added W p f n pk s).
    assert (Hlk : pkgs s1 !! p = Some pk1).
    { apply list_lookup_insert_eq. by eapply lookup_lt_Some. }
    destruct (IH ns' s1 pk1 Hlk Hns Hnd) as (s2 & Hrun & Hp2 & Hf2 & Hr2); [|done|].
    { apply Forall_forall. intros m Hm. rewrite Forall_forall in Habs.
      unfold pk1. cbn [Files pkg_setFiles].
      rewrite Data_Get_app_fresh by auto. simpl.
      destruct (String.eqb n m) eqn:E; [|done].
      apply String.eqb_eq in E. by subst. }
    exists s2. split; [|split; [|split]].
    + intros rest. simpl app.
      rewrite (Parse_range_new f (pre ++ rest) n s pk Hp Hn Hg).
      unfold parse_ok in Hokf. rewrite Hokf. apply Hrun.
    + rewrite Hp2. unfold s1, added. stores. rewrite list_insert_insert_eq. f_equal.
      unfold pk1, pkg_setFiles. cbn [Path Name Files Types Values Funcs Imports p_i].
      rewrite length_app, <- app_assoc. simpl.
      by rewrite Nat.add_1_r.
    + rewrite Hf2. unfold s1, added. stores. by rewrite <- app_assoc.
    + eapply same_rest_trans; [|exact Hr2]. by unfold same_rest.
Qed.

(** The only error [Parse] can return is the parser's. *)
Lemma Parse_range_error fs : forall s e s',
  Parse_range W p fs s = Done (Return (Some e)) s' -> exists msg, e = ParseError msg.
Proof.
  induction fs as [|f rest IH]; intros s e s'; cbn [Parse_range]; [done|].
  destruct (fileName f) as [n|]; [|done]. run.
  destruct (pkgs s !! p) as [pk|]; [|done].
  destruct (Data.Get (Files pk) n); [done|]. run.
  destruct (parser_ParseFile W f) as [t [msg|]]; run.
  - unfold ret. intros [= <- <-]. eauto.
  - apply IH.
Qed.

Lemma Parse_error s e s' :
  Parse W p s = Done (Some e) s' -> exists msg, e = ParseError msg.
Proof.
  unfold Parse. run. destruct (pkgs s !! p) as [pk|]; [|done].
  intros H. apply bind_inv in H as (r & s1 & Hr & H). destruct r as [|err].
  - revert H. run. destruct (pkgs s1 !! p) as [pk1|]; [|done].
    destruct (0 <? Data.Len (Files pk1)); [|done]. run.
    destruct (Data.Index (Files pk1) 0) as [f0|]; [|done]. run.
    destruct (files s1 !! f0) as [fl|]; [|done]. run.
    destruct (f_t fl); [|done]. run. done.
  - injection H as -> ->. by eapply Parse_range_error.
Qed.

End Loader.

(** C3 (amended).  When the files of a package are enumerated as
    [pre ++ bad :: post], none of [pre ++ [bad]] is in the Files table
    yet, the files of [pre] parse and [bad] does not, [Parse] returns the
    parse error of [bad] and looks at no later file.  The package keeps
    its name and its earlier Files entries; the entries made on the way,
    for the files of [pre] and for [bad] itself, stay in the table, in
    order, each with the tree the parser gave for it.  [Inspect], when
    it is the one that created the package, returns no package and the
    same error. *)
Theorem Parse_error_keeps_files (W : World) (p : PkgRef) (s : State) (pk : Package)
        (pre : list string) (bad : string) (post : list string)
        (ns : list string) (msg : string) :
  pkgs s !! p = Some pk ->
  path_Files W (Path pk) = pre ++ bad :: post ->
  Forall2 (fun f n => fileName f = Some n) (pre ++ [bad]) ns ->
  NoDup ns ->
  Forall (fun n => Data.Get (Files pk) n = None) ns ->
  Forall (parse_ok W) pre ->
  snd (parser_ParseFile W bad) = Some msg ->
  exists s',
    Parse W p s = Done (Some (ParseError msg)) s' /\
    pkgs s' = <[p := pkg_setFiles
                        (Files pk ++ zip ns (seq (List.length (files s)) (List.length ns)))
                        pk]> (pkgs s) /\
    files s' = files s ++ zip_with (parsed_file W p) (pre ++ [bad]) ns /\
    same_rest s s' /\
    (forall fuel s0,
        NewPackage (Path pk) s0 = Done p s ->
        Inspect W fuel (Path pk) s0 = Done (None, Some (ParseError msg)) s').
Proof.
  intros Hp Hfs Hns Hnd Habs Hok Hbad.
  apply Forall2_app_inv_l in Hns as (ns1 & ns2 & Hns1 & Hns2 & ->).
  apply Forall2_cons_inv_l in Hns2 as (nb & ? & Hnb & Hnil & ->).
  apply Forall2_nil_inv_l in Hnil as ->.
  apply NoDup_app in Hnd as (Hnd1 & Hdisj & _).
  apply Forall_app in Habs as [Habs1 Habsb]. apply Forall_cons in Habsb as [Habsb _].
  destruct (Parse_range_prefix W p pre ns1 s pk Hp Hns1 Hnd1 Habs1 Hok)
    as (s1 & Hrun & Hp1 & Hf1 & Hr1).
  set (pk1 := pkg_setFiles
                (Files pk ++ zip ns1 (seq (List.length (files s)) (List.length ns1))) pk) in *.
  assert (Hlk : pkgs s1 !! p = Some pk1).
  { rewrite Hp1. apply list_lookup_insert_eq. by eapply lookup_lt_Some. }
  assert (Hfresh : Data.Get (Files pk1) nb = None).
  { unfold pk1. cbn [Files pkg_setFiles]. rewrite Data_Get_app_fresh by done.
    apply Data_Get_None_Keys. unfold Data.Keys. rewrite fst_zip.
    - intros Hin. apply (Hdisj nb Hin). apply list_elem_of_singleton. done.
    - rewrite length_seq. done. }
  pose proof (Parse_range_new W p bad post nb s1 pk1 Hlk Hnb Hfresh) as Hstep.
  rewrite Hbad in Hstep.
  assert (Hparse : Parse W p s = Done (Some (ParseError msg)) (added W p bad nb pk1 s1)).
  { unfold Parse. run. rewrite Hp, Hfs.
    erewrite bind_Done; [|rewrite Hrun; exact Hstep]. done. }
  exists (added W p bad nb pk1 s1). split; [done|]. split; [|split; [|split]].
  - unfold added. stores. rewrite Hp1, list_insert_insert_eq. f_equal.
    unfold pk1, pkg_setFiles. cbn [Path Name Files Types Values Funcs Imports p_i].
    rewrite Hf1, !length_app, length_zip_with, <- app_assoc. f_equal.
    apply Forall2_length in Hns1. rewrite <- Hns1, Nat.min_id. simpl.
    rewrite seq_app, zip_with_app by (by rewrite length_seq). done.
  - unfold added. stores. rewrite Hf1, <- app_assoc. f_equal.
    rewrite zip_with_app by (by eapply Forall2_length). done.
  - eapply same_rest_trans; [exact Hr1|]. by unfold same_rest.
  - intros fuel s0 Hnew. unfold Inspect.
    by rewrite (bind_Done _ _ _ _ _ Hnew), (bind_Done _ _ _ _ _ Hparse).
Qed.

Lemma Parse_error_keeps_files_witness :
  exists s',
    Parse SampleDir.world 0 SampleDir.created
    = Done (Some (ParseError "expected declaration")) s' /\
    fileNamesOf 0 s' = Some ["a"; "b"] /\
    nameOf 0 s' = Some EmptyString /\
    files s' = [mkFile 0 "a" (Some SampleDir.tree) Data.empty;
                mkFile 0 "b" (Some SampleDir.tree) Data.empty] /\
    Inspect SampleDir.world 0 "q" SampleDir.empty
    = Done (None, Some (ParseError "expected declaration")) s'.
Proof.
  destruct (Parse_error_keeps_files SampleDir.world 0 SampleDir.created
              (mkPackage "q" EmptyString [] [] [] [] [] false)
              ["q/a.go"] "q/b.go" ["q/c.go"] ["a"; "b"] "expected declaration")
    as (s' & Hrun & Hpkgs & Hfiles & _ & Hinspect).
  - reflexivity.
  - reflexivity.
  - repeat constructor.
  - apply NoDup_cons. split; [|apply NoDup_singleton].
    rewrite list_elem_of_singleton. discriminate.
  - repeat constructor.
  - repeat constructor.
  - reflexivity.
  - exists s'. split; [exact Hrun|]. unfold fileNamesOf, nameOf. rewrite Hpkgs, Hfiles.
    repeat split. by apply Hinspect.
Defined.

(** C3, as stated, at the directory above: were the partial results
    discarded, the Files table after the failed load would be the table
    before it.  It is not: the entries of [a] and [b] are there. *)
Lemma Parse_error_discards_nothing :
  ~ (forall e s', Parse SampleDir.world 0 SampleDir.created = Done (Some e) s' ->
                  fileNamesOf 0 s' = fileNamesOf 0 SampleDir.created).
Proof.
  intros H.
  destruct (Parse SampleDir.world 0 SampleDir.created) as [[e|] s'| |] eqn:E;
    try (vm_compute in E; discriminate).
  specialize (H e s' eq_refl). vm_compute in E. injection E as <- <-.
  vm_compute in H. discriminate.
Qed.

(** When the first enumerated file is in the table, [Parse] returns at
    once: no error, nothing parsed, nothing changed. *)
Lemma Parse_first_present W p s pk f rest n r :
  pkgs s !! p = Some pk ->
  path_Files W (Path pk) = f :: rest ->
  fileName f = Some n ->
  Data.Get (Files pk) n = Some r ->
  Parse W p s = Done None s.
Proof.
  intros Hp Hfs Hn Hg. unfold Parse. run. rewrite Hp, Hfs.
  by rewrite (bind_Done _ _ _ _ _ (Parse_range_present W p f rest n s pk r Hp Hn Hg)).
Qed.

(** A package without files whose enumerated files all parse: every file
    is parsed and added, in order, and the package is named after the
    tree of the first one. *)
Lemma Parse_all_new W p s pk f0 rest ns t0 :
  pkgs s !! p = Some pk ->
  Files pk = Data.empty ->
  path_Files W (Path pk) = f0 :: rest ->
  Forall2 (fun f n => fileName f = Some n) (f0 :: rest) ns ->
  NoDup ns ->
  Forall (parse_ok W) (f0 :: rest) ->
  fst (parser_ParseFile W f0) = Some t0 ->
  exists s',
    Parse W p s = Done None s' /\
    pkgs s' = <[p := pkg_setName (ast.PkgName t0)
                        (pkg_setFiles (zip ns (seq (List.length (files s)) (List.length ns)))
                                      pk)]> (pkgs s) /\
    files s' = files s ++ zip_with (parsed_file W p) (f0 :: rest) ns /\
    same_rest s s'.
Proof.
  intros Hp Hempty Hfs Hns Hnd Hok Ht0.
  destruct (Parse_range_prefix W p (f0 :: rest) ns s pk Hp Hns Hnd) as (s1 & Hrun & Hp1 & Hf1 & Hr1);
    [|done|].
  { rewrite Hempty. by apply Forall_true. }
  specialize (Hrun []). rewrite app_nil_r in Hrun. cbn [Parse_range] in Hrun.
  rewrite Hempty in Hp1. cbn [app] in Hp1.
  apply Forall2_cons_inv_l in Hns as (n0 & ns' & _ & _ & ->).
  set (pk1 := pkg_setFiles (zip (n0 :: ns') (seq (List.length (files s)) (List.length (n0 :: ns')))) pk) in *.
  assert (Hlk : pkgs s1 !! p = Some pk1).
  { rewrite Hp1. apply list_lookup_insert_eq. by eapply lookup_lt_Some. }
  assert (Hfile : files s1 !! List.length (files s) = Some (parsed_file W p f0 n0)).
  { rewrite Hf1. cbn [zip_with]. by rewrite list_lookup_middle. }
  eexists. split; [|split; [|split]].
  - unfold Parse. run. rewrite Hp, Hfs. rewrite (bind_Done _ _ _ _ _ Hrun). run.
    rewrite Hlk. cbn. run. rewrite Hfile. run. cbn [f_t parsed_file]. rewrite Ht0. run.
    reflexivity.
  - stores. rewrite (alter_as_insert _ _ _ _ Hlk), Hp1. by rewrite list_insert_insert_eq.
  - stores. done.
  - destruct Hr1 as (?&?&?&?&?&?). by repeat split.
Qed.

(** C4.  The directory [q] holds [a.go], [b.go] and [c.go].  A first
    [Parse] stops with the parse error of [b.go].  A second [Parse] finds
    [a] in the Files table and returns, with no error, before it looks
    at any other file: [c.go], which is enumerated and not in the table,
    is not parsed and not added, and the package name is not set. *)
Theorem Parse_returns_at_first_present_file :
  path_Files SampleDir.world "q" = ["q/a.go"; "q/b.go"; "q/c.go"] /\
  result (twice (Parse SampleDir.world 0) SampleDir.created)
  = Some (Some (ParseError "expected declaration"), None) /\
  (final (twice (Parse SampleDir.world 0) SampleDir.created) ≫= fileNamesOf 0)
  = Some ["a"; "b"] /\
  (final (twice (Parse SampleDir.world 0) SampleDir.created) ≫= nameOf 0)
  = Some EmptyString.
Proof. vm_compute. done. Qed.

(** ** The identifier resolver *)

Lemma Split_nonempty s c : strings.Split s c <> [].
Proof.
  destruct s as [|a s]; simpl; [done|].
  destruct (Ascii.eqb a c); [done|]. by destruct (strings.Split s c).
Qed.

Lemma Split_unqualified s c : contains c s = false -> strings.Split s c = [s].
Proof.
  induction s as [|a s IH]; simpl; [done|].
  destruct (Ascii.eqb a c); simpl; [done|]. intros H. by rewrite (IH H).
Qed.

Lemma Split_qualified s c :
  contains c s = true -> exists part0 part1 rest, strings.Split s c = part0 :: part1 :: rest.
Proof.
  induction s as [|a s IH]; simpl; [done|].
  destruct (Ascii.eqb a c); simpl.
  - intros _. pose proof (Split_nonempty s c).
    destruct (strings.Split s c) as [|h t]; [done|]. eauto.
  - intros H. destruct (IH H) as (p0 & p1 & rest & ->). eauto.
Qed.

(** C8.  In a live file, [GetType] returns [ErrNotType] exactly when the
    name is neither a builtin type nor a declared type of the package, is
    qualified, and its import does not resolve it in one of the two ways
    of [unresolved_import]; the Type returned with it is nil.  For an
    unqualified name that is neither builtin nor declared, [GetType]
    returns nil and no error, and changes nothing. *)
Theorem GetType_not_a_type (W : World) (f : FileRef) (name : string) (s : State)
        (fl : File) (pk : Package) :
  files s !! f = Some fl ->
  pkgs s !! f_p fl = Some pk ->
  (forall typ s',
      GetType W f name s = Done (typ, Some ErrNotType) s' <->
      typ = None /\
      Data.Get (BuiltinTypes s) name = None /\
      Data.Get (Types pk) name = None /\
      contains "." name = true /\
      unresolved_import W fl name s s') /\
  (contains "." name = false ->
   Data.Get (BuiltinTypes s) name = None ->
   Data.Get (Types pk) name = None ->
   GetType W f name s = Done (None, None) s).
Proof.
  intros Hf Hp. split.
  - intros typ s'. unfold GetType, unresolved_import. run.
    destruct (Data.Get (BuiltinTypes s) name) as [t|] eqn:Hb.
    { split; [done | intros (_ & ? & _); done]. }
    run. rewrite Hf. run. rewrite Hp.
    destruct (Data.Get (Types pk) name) as [t|] eqn:Ht.
    { split; [done | intros (_ & _ & ? & _); done]. }
    destruct (contains "." name) eqn:Hq.
    2:{ rewrite (Split_unqualified _ _ Hq). split; [done | intros (_ & _ & _ & ? & _); done]. }
    destruct (Split_qualified _ _ Hq) as (part0 & part1 & rest & ->).
    destruct (Data.Get (f_i fl) part0) as [imp|].
    2:{ unfold ret. split; [intros [= <- <-]; done | intros (-> & _ & _ & _ & ->); done]. }
    run. destruct (imports s !! imp) as [i|] eqn:Hi.
    2:{ split; [done | intros (_ & _ & _ & _ & (? & ? & ? & ? & ? & _)); done]. }
    run. destruct (i_pkg i) as [q|] eqn:Hiq.
    2:{ split; [done | intros (_ & _ & _ & _ & (? & ? & ? & ? & ? & ? & _)); simplify_eq]. }
    run. destruct (pkgs s !! q) as [qk|] eqn:Hqk.
    2:{ split; [done|].
        intros (_ & _ & _ & _ & (? & ? & ? & ? & ? & ? & ? & _)); simplify_eq. }
    destruct (Data.Get (Types qk) part1) as [t|] eqn:Hq1.
    { split; [done|].
      intros (_ & _ & _ & _ & (? & ? & ? & ? & ? & ? & ? & ? & _)); simplify_eq. }
    split.
    + intros H. apply bind_inv in H as (err & s1 & HP & H).
      destruct err as [e|].
      { injection H as -> -> ->. apply Parse_error in HP as [msg Hmsg]. done. }
      revert H. run. destruct (pkgs s1 !! q) as [qk'|] eqn:Hq'; [|done].
      destruct (Data.Get (Types qk') part1) eqn:Hq1'; [done|].
      unfold ret. intros [= <- <-]. repeat split; try done.
      exists i, q, qk, qk'. done.
    + intros (-> & _ & _ & _ & (i' & q' & qk0 & qk' & ? & ? & ? & _ & HP & Hq' & Hq1')).
      simplify_eq. rewrite (bind_Done _ _ _ _ _ HP). run. by rewrite Hq', Hq1'.
  - intros Hq Hb Ht. unfold GetType. run. rewrite Hb. run. rewrite Hf. run.
    by rewrite Hp, Ht, (Split_unqualified _ _ Hq).
Qed.

Lemma GetType_not_a_type_witness :
  GetType Sample.world 0 "os.File" Sample.start
  = Done (None, Some ErrNotType) Sample.start /\
  GetType Sample.world 0 "Foo" Sample.start = Done (None, None) Sample.start.
Proof.
  destruct (GetType_not_a_type Sample.world 0 "os.File" Sample.start _ _ eq_refl eq_refl)
    as [Hqualified _].
  destruct (GetType_not_a_type Sample.world 0 "Foo" Sample.start _ _ eq_refl eq_refl)
    as [_ Hplain].
  split.
  - apply Hqualified. repeat split; reflexivity.
  - apply Hplain; reflexivity.
Defined.

(** ** Binary expressions *)

Lemma TypeBinary_unfold self f X Y :
  TypeBinary self f X Y = if isBasicLit (unparen X) then self f Y else self f (unparen X).
Proof. unfold TypeBinary, unparen. destruct X as [| x | | | | | | | | | | | | |]; try done; by destruct x. Qed.

Lemma evaluates_paren W f x s o :
  evaluates W f (ast.ParenExpr x) s o <-> evaluates W f x s o.
Proof.
  split; intros (n & H & Ho).
  - destruct n as [|n]; [by subst|]. by exists n.
  - by exists (S n).
Qed.

(** C7 (amended).  The Type of a binary expression is the Type of its
    left operand, unless the left operand is a basic literal or a basic
    literal in one pair of parentheses: then it is the Type of the right
    operand.  The evaluation of the binary expression is the evaluation
    of that operand, result and state alike.  In particular [x + 1] has
    the float Type of [x], and [1 + 2] the Type of the literal [2]. *)
Theorem TypeBinary_promotion :
  (forall W f X Op Y s o,
      evaluates W f (ast.BinaryExpr X Op Y) s o <->
      evaluates W f (if isBasicLit (unparen X) then Y else X) s o) /\
  result (TypeExpr SampleObj.world 4 0
            (ast.BinaryExpr SampleObj.x token.ADD (Sample.lit token.INT "1")) Sample.start)
  = Some (Some Sample.float64_t) /\
  result (TypeExpr SampleObj.world 4 0 SampleObj.x Sample.start)
  = Some (Some Sample.float64_t) /\
  result (TypeExpr Sample.world 2 0
            (ast.BinaryExpr (Sample.lit token.INT "1") token.ADD (Sample.lit token.FLOAT "2.5"))
            Sample.start)
  = Some (Sample.typeToken token.FLOAT).
Proof.
  split; [|by vm_compute].
  intros W f X Op Y s o.
  assert (Hstep : forall n, TypeExpr W (S n) f (ast.BinaryExpr X Op Y) s
                            = TypeExpr W n f (if isBasicLit (unparen X) then Y else unparen X) s).
  { intros n. cbn [TypeExpr TypeExpr_body]. rewrite TypeBinary_unfold.
    by destruct (isBasicLit (unparen X)). }
  assert (Hleft : isBasicLit (unparen X) = false ->
                  evaluates W f X s o <-> evaluates W f (unparen X) s o).
  { intros _. destruct X; try done. apply evaluates_paren. }
  split.
  - intros (n & H & Ho). destruct n as [|n]; [by subst|]. rewrite Hstep in H.
    destruct (isBasicLit (unparen X)) eqn:E.
    + by exists n.
    + apply Hleft; [done|]. by exists n.
  - destruct (isBasicLit (unparen X)) eqn:E.
    + intros (n & H & Ho). exists (S n). by rewrite Hstep.
    + intros H. apply Hleft in H as (n & H & Ho); [|done].
      exists (S n). by rewrite Hstep.
Qed.

(** C7, as stated, at [(1) + 2.5]: the left operand is a parenthesised
    expression, not a basic literal, and its Type is the int Type; the
    binary expression gets the float Type of the right operand. *)
Lemma TypeBinary_left_operand_counterexample :
  let X := ast.ParenExpr (Sample.lit token.INT "1") in
  let Y := Sample.lit token.FLOAT "2.5" in
  ~ (isBasicLit X = false ->
     forall o, evaluates Sample.world 0 (ast.BinaryExpr X token.ADD Y) Sample.start o ->
               evaluates Sample.world 0 X Sample.start o).
Proof.
  intros X Y H.
  destruct (H eq_refl (Done (Some Sample.float64_t) Sample.start)) as (n & Hn & _).
  - exists 2. split; [reflexivity | discriminate].
  - destruct n as [|[|n]]; discriminate.
Qed.

(** ** Imports *)

(** One import spec with an alias: an Import bound to the file under the
    alias, appended to the file's Import table, resolved to the package
    of that path, which is created when the importing package does not
    know it yet. *)
Lemma InspectImports_alias f alias path s fl pk :
  files s !! f = Some fl ->
  pkgs s !! f_p fl = Some pk ->
  Data.Get (f_i fl) (ast.Name alias) = None ->
  exists s',
    InspectImports f [ast.ImportS (ast.Build_ImportSpec (Some alias) path)] s
    = Done None s' /\
    (exists fl', files s' !! f = Some fl' /\
                 f_i fl' = f_i fl ++ [(ast.Name alias, List.length (imports s))]) /\
    (exists q, imports s' = imports s ++ [mkImport f (ast.Name alias) (Some q)] /\
               match Data.Get (Imports pk) path with
               | Some q0 => q = q0 /\ pkgs s' = pkgs s
               | None => q = List.length (pkgs s)
               end).
Proof.
  intros Hf Hp Hfresh. unfold InspectImports. cbn [InspectImports_range].
  run. cbn [ast.ImportName ast.PathValue]. run. rewrite Hf. run. rewrite list_lookup_alter_eq, Hf. cbn [fmap option_fmap option_map].
  run. cbn [f_p file_addImport]. rewrite Hp.
  destruct (Data.Get (Imports pk) path) as [q0|].
  - run. eexists. split; [reflexivity|]. stores. split.
    + eexists. rewrite list_lookup_alter_eq, Hf. split; [reflexivity|].
      cbn [f_i file_addImport]. by apply Data_Add_fresh.
    + exists q0. by rewrite alter_last.
  - run. eexists. split; [reflexivity|]. stores. split.
    + eexists. rewrite list_lookup_alter_eq, Hf. split; [reflexivity|].
      cbn [f_i file_addImport]. by apply Data_Add_fresh.
    + eexists. by rewrite alter_last.
Qed.

(** C9.  An import spec without an alias has no [Name]: [InspectImports]
    dereferences it and panics, so no Import is created and no name is
    derived from the path.  The same import written with the alias [f]
    gives an Import bound to the file under [f], appended to the file's
    Import table. *)
Theorem InspectImports_without_alias_panics :
  InspectImports 0 [SampleImport.plain] Sample.start = Panic nil_deref /\
  (final (InspectImports 0 [SampleImport.aliased] Sample.start) ≫= importsOf 0)
  = Some [("f", Some (mkImport 0 "f" (Some 1)))].
Proof. by vm_compute. Qed.

(** ** Value declarations *)

(** C6.  [func f() (int, string)] and [var a, b = f()] in one file:
    after [File.Inspect] both [a] and [b] have the nil Type, because the
    callee [f] resolves to no Type ([InspectFunc] registers nothing).
    In a tree with object resolution, where [f] points to its
    declaration, [File.Inspect] panics on the missing Funcs entry. *)
Theorem InspectValues_call_outputs_not_distributed :
  result (thenTypes (File_Inspect Sample.world 5 0) 0 ["a"; "b"]
            (SampleCall.state [SampleCall.decl_f; SampleCall.var_ab SampleCall.call_f]))
  = Some [None; None] /\
  File_Inspect SampleCall.world_resolved 5 0
    (SampleCall.state [SampleCall.decl_f; SampleCall.var_ab SampleCall.call_f_resolved])
  = Panic bad_assert.
Proof. by vm_compute. Qed.

(** The example of the design document, [const ( A int = 1; B = 2; C = 3 )]:
    the three names have the int Type, [B] and [C] because that is the
    Type of their integer literals. *)
Example InspectValues_int_literals :
  result (thenTypes (InspectValues Sample.world (TypeExpr Sample.world 3) 0 CONST
                       SampleConst.int_with_initializers)
                    0 ["A"; "B"; "C"] Sample.start)
  = Some [Some Sample.int_t; Sample.typeToken token.INT; Sample.typeToken token.INT].
Proof. by vm_compute. Qed.

(** C5, as stated, at [const ( A float64 = 1; B = 2; C = 3 )]: [B] and
    [C] have initializers, so the prior type is not used for them; they
    get the Type of their literal, the int Type, and [A] the float
    Type. *)
Lemma InspectValues_initializer_counterexample :
  ~ (forall ts,
        result (thenTypes (InspectValues Sample.world (TypeExpr Sample.world 3) 0 CONST
                             SampleConst.with_initializers)
                          0 ["A"; "B"; "C"] Sample.start) = Some ts ->
        ts !! 1 = ts !! 0 /\ ts !! 2 = ts !! 0).
Proof.
  intros H.
  destruct (H [Some Sample.float64_t; Some Sample.int_t; Some Sample.int_t]) as [HB _].
  - by vm_compute.
  - discriminate.
Qed.

Lemma declared_typ f n t s :
  declared f n t s -> declaredValueTyp f n s = Done (Some t) s.
Proof.
  intros (fl & pk & v & val & Hf & Hp & Hg & Hv & Ht).
  unfold declaredValueTyp. run. rewrite Hf. run. rewrite Hp, Hg. run.
  rewrite Hv. unfold ret. by rewrite Ht.
Qed.

Section ValueGroups.

Context (W : World).
Variable self : FileRef -> ast.Expr -> M (option TypeRef).
Variables (f : FileRef) (k : ValueKind) (t : TypeRef).

(** Names that are new to the package are all kept by the first loop of
    [InspectValues]. *)
Lemma fresh_names (pk : Package) (ns : list ast.Ident) :
  Forall (fun n => Data.Get (Values pk) (ast.Name n) = None) ns ->
  (fun n => match Data.Get (Values pk) (ast.Name n) with
            | None => Some n
            | Some _ => None
            end) <$> ns = Some <$> ns.
Proof.
  intros Habs. apply Forall_fmap_ext_1. eapply Forall_impl; [exact Habs|].
  intros n Hn. cbn beta. by rewrite Hn.
Qed.

Lemma omap_id_Some {A : Type} (l : list A) : omap id (Some <$> l) = l.
Proof. induction l as [|a l IH]; [done|]. cbn. by rewrite IH. Qed.

(** Declaring [n] keeps what was declared and declares [n]. *)
Lemma declare_declared n s fl pk :
  files s !! f = Some fl ->
  pkgs s !! f_p fl = Some pk ->
  declared f n t (declare f k n t fl pk s).
Proof.
  intros Hf Hp. exists fl, (pkg_addValue n (List.length (values s)) pk),
    (List.length (values s)), (mkValue (Some f) k n (Some t)).
  unfold declare. stores. split; [done|]. split.
  { apply list_lookup_insert_eq. by eapply lookup_lt_Some. }
  split; [apply Data_Get_Add_eq|]. split; [|done].
  by rewrite list_lookup_middle.
Qed.

Lemma declare_keeps n m s fl pk :
  files s !! f = Some fl ->
  pkgs s !! f_p fl = Some pk ->
  Data.Get (Values pk) n = None ->
  declared f m t s ->
  declared f m t (declare f k n t fl pk s).
Proof.
  intros Hf Hp Hg (fl' & pk' & v & val & Hf' & Hp' & Hg' & Hv & Ht).
  assert (fl' = fl) as -> by congruence. assert (pk' = pk) as -> by congruence.
  exists fl, (pkg_addValue n (List.length (values s)) pk), v, val.
  unfold declare. stores. split; [done|]. split.
  { apply list_lookup_insert_eq. by eapply lookup_lt_Some. }
  split; [|split; [|done]].
  - cbn [Values pkg_addValue]. rewrite Data_Get_Add_ne; [done|]. congruence.
  - by apply lookup_app_l_Some.
Qed.

(** One turn of the last loop of [InspectValues] when the type of the
    group is known. *)
Lemma InspectValues_names_typed_cons types vals i n rest s fl pk :
  files s !! f = Some fl ->
  pkgs s !! f_p fl = Some pk ->
  InspectValues_names self f k (Some t) types vals i (Some n :: rest) s
  = InspectValues_names self f k (Some t) types vals (S i) rest
      (declare f k (ast.Name n) t fl pk s).
Proof.
  intros Hf Hp. cbn [InspectValues_names]. run. rewrite Hf. run. rewrite Hp. run.
  f_equal. unfold declare, with_values, with_pkgs. stores.
  by rewrite alter_last, (alter_as_insert _ _ _ _ Hp).
Qed.

(** The last loop of [InspectValues] on distinct new names when the type
    of the group is known: one Value per name, in order, of that
    Type. *)
Lemma InspectValues_names_annotated types vals ns : forall i s fl pk,
  files s !! f = Some fl ->
  pkgs s !! f_p fl = Some pk ->
  NoDup (ast.Name <$> ns) ->
  Forall (fun n => Data.Get (Values pk) (ast.Name n) = None) ns ->
  exists s' pk',
    InspectValues_names self f k (Some t) types vals i (Some <$> ns) s = Done tt s' /\
    files s' = files s /\
    pkgs s' !! f_p fl = Some pk' /\
    (forall m, m ∉ ast.Name <$> ns -> Data.Get (Values pk') m = Data.Get (Values pk) m) /\
    (forall m, declared f m t s -> declared f m t s') /\
    Forall (fun n => declared f (ast.Name n) t s') ns /\
    values s' = values s ++ ((fun n => mkValue (Some f) k (ast.Name n) (Some t)) <$> ns).
Proof.
  induction ns as [|n ns IH]; intros i s fl pk Hf Hp Hnd Habs.
  - exists s, pk. rewrite app_nil_r. by repeat split.
  - rewrite fmap_cons in Hnd. apply NoDup_cons in Hnd as [Hnin Hnd].
    apply Forall_cons in Habs as [Hg Habs].
    rewrite fmap_cons, (InspectValues_names_typed_cons _ _ _ _ _ _ _ _ Hf Hp).
    set (s1 := declare f k (ast.Name n) t fl pk s).
    destruct (IH (S i) s1 fl (pkg_addValue (ast.Name n) (List.length (values s)) pk))
      as (s' & pk' & Hrun & Hfiles & Hp' & Hsame & Hkeep & Hnew & Hvals); [done| |done| |].
    { apply list_lookup_insert_eq. by eapply lookup_lt_Some. }
    { apply Forall_forall. intros m Hm. rewrite Forall_forall in Habs.
      cbn [Values pkg_addValue]. rewrite Data_Get_Add_ne; [by apply Habs|].
      intros Heq. apply Hnin. rewrite Heq. by apply list_elem_of_fmap_2. }
    exists s', pk'. split; [done|]. split; [done|]. split; [done|]. split; [|split; [|split]].
    + intros m Hm. rewrite fmap_cons in Hm. apply not_elem_of_cons in Hm as [Hne Hm].
      rewrite (Hsame m Hm). cbn [Values pkg_addValue]. by rewrite Data_Get_Add_ne.
    + intros m Hm. apply Hkeep. by apply declare_keeps.
    + apply Forall_cons. split; [|done]. apply Hkeep. by apply declare_declared.
    + rewrite Hvals. unfold s1, declare. stores. by rewrite <- app_assoc.
Qed.

(** A run of groups without type and without initializer after the
    prior type [t] has been set. *)
Lemma InspectValues_range_inherit groups : forall s fl pk,
  files s !! f = Some fl ->
  pkgs s !! f_p fl = Some pk ->
  NoDup (ast.Name <$> List.concat groups) ->
  Forall (fun n => Data.Get (Values pk) (ast.Name n) = None) (List.concat groups) ->
  exists s',
    InspectValues_range W self f k (Some t) (bares <$> groups) s = Done tt s' /\
    (forall m, declared f m t s -> declared f m t s') /\
    Forall (fun n => declared f (ast.Name n) t s') (List.concat groups).
Proof.
  induction groups as [|ns groups IH]; intros s fl pk Hf Hp Hnd Habs.
  - exists s. split; [done|]. split; [done | constructor].
  - cbn [List.concat] in Hnd, Habs |- *. rewrite fmap_app in Hnd.
    apply NoDup_app in Hnd as (Hnd1 & Hdisj & Hnd2).
    apply Forall_app in Habs as [Habs1 Habs2].
    rewrite fmap_cons. cbn [InspectValues_range bares]. run. rewrite Hf. run. rewrite Hp.
    cbn [ast.Names ast.Type_ ast.Values]. rewrite (fresh_names pk ns Habs1), omap_id_Some.
    destruct (InspectValues_names_annotated [] (ast.Build_ValueSpec ns None []) ns 0
                s fl pk Hf Hp Hnd1 Habs1)
      as (s1 & pk1 & Hrun & Hfiles & Hp1 & Hsame & Hkeep & Hnew & _).
    destruct (IH s1 fl pk1) as (s' & Hrun' & Hkeep' & Hnew'); [by rewrite Hfiles|done|done| |].
    { apply Forall_forall. intros m Hm. rewrite Forall_forall in Habs2.
      rewrite Hsame; [by apply Habs2|]. intros Hin. apply (Hdisj _ Hin).
      by apply list_elem_of_fmap_2. }
    destruct ns as [|n0 ns0].
    + cbn [List.length Nat.eqb]. injection Hrun as <-.
      exists s'. split; [done|]. split; [done|]. by rewrite app_nil_l.
    + cbn [List.length Nat.eqb]. run. rewrite (bind_Done _ _ _ _ _ Hrun).
      exists s'. split; [done|]. split; [auto|]. apply Forall_app. split; [|done].
      eapply Forall_impl; [exact Hnew|]. intros n. apply Hkeep'.
Qed.

End ValueGroups.

(** C5 (amended).  In a declaration block in which only the first group
    carries a type annotation, the annotation resolves to the Type [t],
    and every following group has neither a type nor an initializer, as
    in [( A int = 1; B; C )], every name of the block gets the Type [t]:
    the annotated type is carried forward as the prior type.  The names
    of the block are distinct and new to the package. *)
Theorem InspectValues_prior_type (W : World)
        (self : FileRef -> ast.Expr -> M (option TypeRef))
        (f : FileRef) (k : ValueKind) (As : list ast.Ident) (te : ast.Expr)
        (vs : list ast.Expr) (groups : list (list ast.Ident))
        (s s1 : State) (t : TypeRef) (fl fl1 : File) (pk pk1 : Package) :
  files s !! f = Some fl ->
  pkgs s !! f_p fl = Some pk ->
  As <> [] ->
  Forall (fun n => Data.Get (Values pk) (ast.Name n) = None) As ->
  self f te s = Done (Some t) s1 ->
  files s1 !! f = Some fl1 ->
  pkgs s1 !! f_p fl1 = Some pk1 ->
  NoDup (ast.Name <$> As ++ List.concat groups) ->
  Forall (fun n => Data.Get (Values pk1) (ast.Name n) = None) (As ++ List.concat groups) ->
  exists s',
    InspectValues W self f k
      (ast.ValueS (ast.Build_ValueSpec As (Some te) vs) :: (bares <$> groups)) s
    = Done None s' /\
    Forall (fun n => declaredValueTyp f (ast.Name n) s' = Done (Some t) s')
           (As ++ List.concat groups).
Proof.
  intros Hf Hp Hne Habs Hte Hf1 Hp1 Hnd Habs1.
  rewrite fmap_app in Hnd. apply NoDup_app in Hnd as (HndA & Hdisj & Hndg).
  apply Forall_app in Habs1 as [HabsA Habsg].
  destruct (InspectValues_names_annotated self f k t [] (ast.Build_ValueSpec As (Some te) vs)
              As 0 s1 fl1 pk1 Hf1 Hp1 HndA HabsA)
    as (s2 & pk2 & Hrun & Hfiles & Hp2 & Hsame & _ & HnewA & _).
  destruct (InspectValues_range_inherit W self f k t groups s2 fl1 pk2)
    as (s' & Hrun' & Hkeep & Hnew); [by rewrite Hfiles|done|done| |].
  { apply Forall_forall. intros m Hm. rewrite Forall_forall in Habsg.
    rewrite Hsame; [by apply Habsg|]. intros Hin. apply (Hdisj _ Hin).
    by apply list_elem_of_fmap_2. }
  exists s'. split.
  - unfold InspectValues. cbn [InspectValues_range]. run. rewrite Hf. run. rewrite Hp.
    cbn [ast.Names ast.Type_ ast.Values]. rewrite (fresh_names pk As Habs), omap_id_Some.
    destruct As as [|A0 As0]; [done|]. cbn [List.length Nat.eqb].
    run. rewrite (bind_Done _ _ _ _ _ Hte). run.
    rewrite (bind_Done _ _ _ _ _ Hrun). rewrite (bind_Done _ _ _ _ _ Hrun'). done.
  - apply Forall_app. split.
    + eapply Forall_impl; [exact HnewA|]. intros n Hn. by apply declared_typ, Hkeep.
    + eapply Forall_impl; [exact Hnew|]. intros n. apply declared_typ.
Qed.

Lemma InspectValues_prior_type_witness :
  exists s',
    InspectValues Sample.world (TypeExpr Sample.world 3) 0 CONST
      [ast.ValueS (ast.Build_ValueSpec [Sample.ident "A"; Sample.ident "A2"]
                     (Some (Sample.name "float64"))
                     [Sample.lit token.INT "1"; Sample.lit token.INT "2"]);
       bares [Sample.ident "B"; Sample.ident "C"];
       bares [Sample.ident "D"]]
      Sample.start = Done None s' /\
    Forall (fun n => declaredValueTyp 0 (ast.Name n) s' = Done (Some Sample.float64_t) s')
           [Sample.ident "A"; Sample.ident "A2"; Sample.ident "B"; Sample.ident "C";
            Sample.ident "D"].
Proof.
  refine (InspectValues_prior_type Sample.world (TypeExpr Sample.world 3) 0 CONST
            [Sample.ident "A"; Sample.ident "A2"] (Sample.name "float64")
            [Sample.lit token.INT "1"; Sample.lit token.INT "2"]
            [[Sample.ident "B"; Sample.ident "C"]; [Sample.ident "D"]]
            Sample.start Sample.start Sample.float64_t _ _ _ _
            eq_refl eq_refl _ _ eq_refl eq_refl eq_refl _ _).
  - discriminate.
  - repeat constructor.
  - simpl.
    repeat (apply NoDup_cons_2;
            [rewrite ?not_elem_of_cons; repeat split; try discriminate; apply not_elem_of_nil|]).
    apply NoDup_nil_2.
  - simpl. repeat constructor.
Defined.

(** ** The stores only grow under evaluation *)

Lemma frame_refl k s : frame k s s.
Proof. by split. Qed.

Lemma frame_trans k s1 s2 s3 : frame k s1 s2 -> frame k s2 s3 -> frame k s1 s3.
Proof. intros [H1 P1] [H2 P2]. split; [congruence | by etrans]. Qed.

Lemma frame_length k s s' :
  frame k s s' -> k <= List.length (funcs s) -> k <= List.length (funcs s').
Proof.
  intros [H _] Hk. apply (f_equal List.length) in H.
  rewrite (length_take_le (funcs s)) in H by done.
  rewrite length_take in H. lia.
Qed.

Lemma frame_func k s s' fn :
  frame k s s' -> fn < k -> funcs s' !! fn = funcs s !! fn.
Proof.
  intros [H _] Hfn.
  by rewrite <- (lookup_take_lt (funcs s') k), H, lookup_take_lt.
Qed.

Lemma frame_type k s s' t x :
  frame k s s' -> types s !! t = Some x -> types s' !! t = Some x.
Proof. intros [_ H] Ht. by eapply prefix_lookup_Some. Qed.

Section Keeps.

Context {A B : Type} (k : nat).

Lemma keeps_ret (a : A) : keeps k (ret a).
Proof. intros s a' s' [= <- <-] _. apply frame_refl. Qed.

Lemma keeps_panic msg : keeps k (@panic A msg).
Proof. by intros s a s' H. Qed.

Lemma keeps_bind (m : M A) (g : A -> M B) :
  keeps k m -> (forall a, keeps k (g a)) -> keeps k (bind m g).
Proof.
  intros Hm Hg s b s' H Hk. apply bind_inv in H as (a & s1 & H1 & H2).
  pose proof (Hm _ _ _ H1 Hk) as F1.
  eapply frame_trans; [exact F1|]. eapply Hg; [exact H2|]. by eapply frame_length.
Qed.

Lemma keeps_deref (o : option A) : keeps k (deref o).
Proof. destruct o; [apply keeps_ret | apply keeps_panic]. Qed.

(** A state change that touches neither the Funcs nor the Types. *)
Lemma keeps_modify (g : State -> State) :
  (forall s, funcs (g s) = funcs s /\ types (g s) = types s) -> keeps k (modify g).
Proof.
  intros Hg s a s' [= _ <-] _. destruct (Hg s) as [Hf Ht]. unfold frame.
  by rewrite Hf, Ht.
Qed.

End Keeps.

Lemma keeps_get k : keeps k get.
Proof. intros s a s' [= <- <-] _. apply frame_refl. Qed.

Lemma keeps_read {A : Type} k (g : State -> option A) : keeps k (s <- get ;; deref (g s)).
Proof. apply keeps_bind; [apply keeps_get | intros; apply keeps_deref]. Qed.

Lemma keeps_newType k x : keeps k (newType x).
Proof.
  intros s a s' [= <- <-] _. split; [done|]. stores. by apply prefix_app_r.
Qed.

Lemma keeps_newFunc {B : Type} k x (g : FuncRef -> M B) :
  (forall fn, k <= fn -> keeps k (g fn)) -> keeps k (bind (newFunc x) g).
Proof.
  intros Hg s b s' H Hk. revert H. run. intros H.
  assert (F : frame k s (with_funcs (fun l => l ++ [x]) s)).
  { split; [|done]. stores. by apply take_app_le. }
  eapply frame_trans; [exact F|]. eapply (Hg _ Hk); [exact H|]. by eapply frame_length.
Qed.

Lemma keeps_setFunc k fn g : k <= fn -> keeps k (setFunc fn g).
Proof.
  intros Hfn s a s' [= _ <-] _. split; [|done]. stores. by apply take_alter_ge.
Qed.

(** Decomposing a computation into the steps above. *)
Ltac keeps_step :=
  match goal with
  | |- keeps _ (bind (newFunc _) _) => apply keeps_newFunc; intros
  | |- keeps _ (bind _ _) => apply keeps_bind; [|intros]
  | |- keeps _ (ret _) => apply keeps_ret
  | |- keeps _ (panic _) => apply keeps_panic
  | |- keeps _ (deref _) => apply keeps_deref
  | |- keeps _ get => apply keeps_get
  | |- keeps _ (newType _) => apply keeps_newType
  | |- keeps _ (setFunc _ _) => apply keeps_setFunc; lia
  | |- keeps _ (modify _) => apply keeps_modify; intros; by split
  | |- keeps _ (match ?x with _ => _ end) => destruct x
  | |- keeps _ (let '(_, _) := ?x in _) => destruct x
  end.

Ltac keeps_auto :=
  unfold getPkg, getFile, getType, getValue, getImport, getFunc,
         setPkg, setFile, setValue, setImport, NewFile, NewPackage,
         newPkg, newFile, newValue, newImport, on_nil;
  repeat keeps_step.

Lemma keeps_alloc {A : Type} k (a : State -> A) (g : State -> State) :
  (forall s, funcs (g s) = funcs s /\ types (g s) = types s) ->
  keeps k (fun s => Done (a s) (g s)).
Proof.
  intros Hg s x s' [= <- <-] _. destruct (Hg s) as [Hf Ht]. unfold frame.
  by rewrite Hf, Ht.
Qed.

Section KeepsEngine.

Context (W : World) (k : nat).

Lemma Parse_range_keeps p fs : keeps k (Parse_range W p fs).
Proof.
  induction fs as [|f rest IH]; cbn [Parse_range]; keeps_auto; try done;
    by apply keeps_alloc.
Qed.

Lemma Parse_keeps p : keeps k (Parse W p).
Proof. unfold Parse. keeps_auto; try apply Parse_range_keeps. Qed.

Lemma GetType_keeps f name : keeps k (GetType W f name).
Proof. unfold GetType. keeps_auto; try apply Parse_keeps. Qed.

Variable self : FileRef -> ast.Expr -> M (option TypeRef).
Hypothesis self_keeps : forall f e, keeps k (self f e).

Lemma assignOuts_keeps outs : forall i types, keeps k (assignOuts i outs types).
Proof. induction outs as [|t rest IH]; intros i types; cbn [assignOuts]; keeps_auto. apply IH. Qed.

Lemma InspectValues_names_keeps f vk typ types vals names :
  forall i, keeps k (InspectValues_names self f vk typ types vals i names).
Proof.
  induction names as [|[n|] rest IH]; intros i; cbn [InspectValues_names];
    keeps_auto; try apply IH; try apply self_keeps; by apply keeps_alloc.
Qed.

Lemma InspectValues_range_keeps f vk specs :
  forall prior, keeps k (InspectValues_range W self f vk prior specs).
Proof.
  induction specs as [|sp rest IH]; intros prior; cbn [InspectValues_range]; [keeps_auto|].
  keeps_auto; try apply IH; try apply self_keeps; try apply assignOuts_keeps;
    try apply InspectValues_names_keeps.
Qed.

Lemma InspectValue_keeps f vk v : keeps k (InspectValue W self f vk v).
Proof.
  unfold InspectValue, InspectValues. keeps_auto. apply InspectValues_range_keeps.
Qed.

Lemma declaredValueTyp_keeps f name : keeps k (declaredValueTyp f name).
Proof. unfold declaredValueTyp. keeps_auto. Qed.

Lemma TypeIdent_keeps f i : keeps k (TypeIdent W self f i).
Proof.
  unfold TypeIdent, InspectType, InspectFunc. keeps_auto;
    try apply GetType_keeps; try apply InspectValue_keeps;
    try apply declaredValueTyp_keeps.
Qed.

Lemma typePointer_keeps f t : keeps k (typePointer f t).
Proof. unfold typePointer. keeps_auto. Qed.

Lemma paramsAdd_keeps fn side t : k <= fn -> keeps k (paramsAdd W fn side t).
Proof. intros Hfn. unfold paramsAdd. keeps_auto. Qed.

Lemma TypeFuncParams_names_keeps names fn side t :
  k <= fn -> keeps k (TypeFuncParams_names W names fn side t).
Proof.
  intros Hfn. induction names as [|n rest IH]; cbn [TypeFuncParams_names]; keeps_auto;
    [by apply paramsAdd_keeps | apply IH].
Qed.

Lemma TypeFuncParams_keeps f from fn side :
  k <= fn -> keeps k (TypeFuncParams W self f from fn side).
Proof.
  intros Hfn. destruct from as [fields|]; cbn [TypeFuncParams]; [|keeps_auto].
  induction fields as [|field rest IH]; cbn [TypeFuncParams_range]; keeps_auto;
    [apply self_keeps | by apply TypeFuncParams_names_keeps | apply IH].
Qed.

Lemma TypeFunc_keeps f Params Results : keeps k (TypeFunc W self f Params Results).
Proof.
  unfold TypeFunc. keeps_auto; by apply TypeFuncParams_keeps.
Qed.

Lemma TypeArray_keeps f Len Elt : keeps k (TypeArray self f Len Elt).
Proof. unfold TypeArray, arrayType. keeps_auto; apply self_keeps. Qed.

Lemma TypeMap_keeps f Key Value : keeps k (TypeMap self f Key Value).
Proof. unfold TypeMap. keeps_auto; apply self_keeps. Qed.

Lemma TypeStruct_keeps f : keeps k (TypeStruct f).
Proof. unfold TypeStruct. keeps_auto. Qed.

Lemma TypeExpr_body_keeps f e : keeps k (TypeExpr_body W self f e).
Proof.
  unfold TypeExpr_body, TypePointer, TypeUnary, TypeBinary, TypeCall.
  keeps_auto;
    try apply self_keeps; try apply TypeIdent_keeps; try apply typePointer_keeps;
    try apply TypeFunc_keeps; try apply TypeArray_keeps; try apply TypeMap_keeps;
    try apply TypeStruct_keeps.
Qed.

End KeepsEngine.

Lemma TypeExpr_keeps W k fuel : forall f e, keeps k (TypeExpr W fuel f e).
Proof.
  induction fuel as [|fuel IH]; intros f e; cbn [TypeExpr]; [by intros s a s' H|].
  by apply TypeExpr_body_keeps.
Qed.

(** ** Function literals *)



Section FuncLit.

Context (W : World).
Variable self : FileRef -> ast.Expr -> M (option TypeRef).
Hypothesis self_keeps : forall k f e, keeps k (self f e).
Variables (f : FileRef) (fn : FuncRef) (typ : TypeRef).






End FuncLit.



(** ** File names *)

Lemma append_length (a b : string) :
  String.length (a +:+ b) = String.length a + String.length b.
Proof. induction a as [|x a IH]; simpl; [done|]. by rewrite IH. Qed.

Lemma contains_append c (a b : string) :
  contains c (a +:+ b) = contains c a || contains c b.
Proof.
  induction a as [|x a IH]; simpl; [done|]. rewrite IH. by destruct (Ascii.eqb x c).
Qed.

Lemma lastIndexFrom_append c (a b : string) : forall i found,
  strings.lastIndexFrom c (a +:+ b) i found
  = strings.lastIndexFrom c b (i + Z.of_nat (String.length a))%Z
      (strings.lastIndexFrom c a i found).
Proof.
  induction a as [|x a IH]; intros i found; simpl.
  - by rewrite Z.add_0_r.
  - rewrite IH. f_equal. lia.
Qed.

Lemma lastIndexFrom_absent c (s : string) : forall i found,
  contains c s = false -> strings.lastIndexFrom c s i found = found.
Proof.
  induction s as [|x s IH]; intros i found; simpl; [done|].
  destruct (Ascii.eqb x c); simpl; [done|]. apply IH.
Qed.

(** The last occurrence: after it the separator does not occur. *)
Lemma LastIndex_last c (a b : string) :
  contains c b = false ->
  strings.LastIndex (a +:+ String c b) c = Z.of_nat (String.length a).
Proof.
  intros Hb. unfold strings.LastIndex. rewrite lastIndexFrom_append. simpl.
  rewrite Ascii.eqb_refl. by rewrite lastIndexFrom_absent.
Qed.

Lemma LastIndex_absent c (s : string) :
  contains c s = false -> strings.LastIndex s c = (-1)%Z.
Proof. apply lastIndexFrom_absent. Qed.

Lemma substring_skip (a b : string) n :
  substring (String.length a) n (a +:+ b) = substring 0 n b.
Proof. induction a as [|x a IH]; simpl; [done | apply IH]. Qed.

Lemma substring_prefix (a b : string) :
  substring 0 (String.length a) (a +:+ b) = a.
Proof.
  induction a as [|x a IH]; simpl; [by destruct b|]. by rewrite IH.
Qed.

Lemma slice_in_range (s : string) (lo hi : Z) :
  (0 <= lo)%Z -> (lo <= hi)%Z -> (hi <= Z.of_nat (String.length s))%Z ->
  strings.slice s lo hi = Some (substring (Z.to_nat lo) (Z.to_nat (hi - lo)) s).
Proof.
  intros H1 H2 H3. unfold strings.slice.
  apply Z.leb_le in H1, H2, H3. by rewrite H1, H2, H3.
Qed.

(** X1.  The key of a file in the Files table is its base name: the part
    of the path after the last slash and before the last dot.  For a path
    [dir/base.ext], and for [base.ext] without a directory, where [base]
    holds no slash and [ext] neither slash nor dot, it is [base]. *)
Theorem fileName_base (dir base ext : string) :
  contains "/" base = false ->
  contains "/" ext = false ->
  contains "." ext = false ->
  fileName (dir +:+ String "/" (base +:+ String "." ext)) = Some base /\
  fileName (base +:+ String "." ext) = Some base.
Proof.
  intros Hbase Hext Hdot.
  assert (Hslash : contains "/" (base +:+ String "." ext) = false).
  { rewrite contains_append, Hbase. simpl. by rewrite Hext. }
  split.
  - unfold fileName. rewrite (LastIndex_last "/" dir _ Hslash).
    assert (Hlast : strings.LastIndex (dir +:+ String "/" (base +:+ String "." ext)) "."
                    = Z.of_nat (String.length dir + 1 + String.length base)).
    { unfold strings.LastIndex. rewrite lastIndexFrom_append. simpl.
      rewrite lastIndexFrom_append. simpl. rewrite lastIndexFrom_absent by done. lia. }
    rewrite Hlast, slice_in_range.
    + f_equal.
      replace (Z.to_nat (Z.of_nat (String.length dir) + 1)) with (S (String.length dir)) by lia.
      replace (Z.to_nat (Z.of_nat (String.length dir + 1 + String.length base)
                         - (Z.of_nat (String.length dir) + 1)))
        with (String.length base) by lia.
      clear. induction dir as [|x dir IH]; simpl; [apply substring_prefix | apply IH].
    + lia.
    + lia.
    + rewrite append_length. simpl. rewrite append_length. simpl. lia.
  - unfold fileName. rewrite (LastIndex_absent "/" _ Hslash).
    rewrite (LastIndex_last "." base ext Hdot), slice_in_range.
    + f_equal. change (-1 + 1)%Z with 0%Z. rewrite Z.sub_0_r, Nat2Z.id.
      apply substring_prefix.
    + lia.
    + lia.
    + rewrite append_length. simpl. lia.
Qed.

Lemma fileName_base_witness :
  fileName "pkg/inspect/types.go" = Some "types" /\
  fileName "main.go" = Some "main".
Proof.
  split.
  - exact (proj1 (fileName_base "pkg/inspect" "types" "go" eq_refl eq_refl eq_refl)).
  - exact (proj2 (fileName_base EmptyString "main" "go" eq_refl eq_refl eq_refl)).
Defined.

(** X2.  A path without a dot has no base name: the slice expression of
    [Parse] is out of range and [Parse] panics at that file, whatever the
    state of the package. *)
Theorem Parse_panics_without_dot (W : World) (p : PkgRef) (s : State) (pk : Package)
        (f : string) (rest : list string) :
  pkgs s !! p = Some pk ->
  path_Files W (Path pk) = f :: rest ->
  contains "." f = false ->
  fileName f = None /\ Parse W p s = Panic out_of_range.
Proof.
  intros Hp Hfs Hdot.
  assert (Hname : fileName f = None).
  { unfold fileName, strings.slice. rewrite (LastIndex_absent "." f Hdot).
    destruct (0 <=? strings.LastIndex f "/" + 1)%Z eqn:E; [|done]. simpl.
    apply Z.leb_le in E.
    replace (strings.LastIndex f "/" + 1 <=? -1)%Z with false; [done|].
    symmetry. apply Z.leb_gt. lia. }
  split; [done|]. unfold Parse. run. rewrite Hp, Hfs. cbn [Parse_range].
  rewrite Hname. by run.
Qed.

Lemma Parse_panics_without_dot_witness :
  fileName "q/LICENSE" = None /\
  Parse SampleNoDot.world 0 SampleDir.created = Panic out_of_range.
Proof.
  exact (Parse_panics_without_dot SampleNoDot.world 0 SampleDir.created _ "q/LICENSE" []
           eq_refl eq_refl eq_refl).
Defined.

(** X3.  A package without files whose enumerated files all parse is
    loaded by one [Parse]: every file gets an entry, in order, and the
    package takes the name of the first tree.  A second [Parse] finds the
    first file in the table and returns at once, with no error and
    without changing anything: the package is not parsed again. *)
Theorem Parse_loads_once (W : World) (p : PkgRef) (s : State) (pk : Package)
        (f0 : string) (rest : list string) (ns : list string) (t0 : ast.File) :
  pkgs s !! p = Some pk ->
  Files pk = Data.empty ->
  path_Files W (Path pk) = f0 :: rest ->
  Forall2 (fun f n => fileName f = Some n) (f0 :: rest) ns ->
  NoDup ns ->
  Forall (parse_ok W) (f0 :: rest) ->
  fst (parser_ParseFile W f0) = Some t0 ->
  exists s',
    Parse W p s = Done None s' /\
    Parse W p s' = Done None s' /\
    fileNamesOf p s' = Some ns /\
    nameOf p s' = Some (ast.PkgName t0) /\
    files s' = files s ++ zip_with (parsed_file W p) (f0 :: rest) ns.
Proof.
  intros Hp Hempty Hfs Hns Hnd Hok Ht0.
  destruct (Parse_all_new W p s pk f0 rest ns t0 Hp Hempty Hfs Hns Hnd Hok Ht0)
    as (s' & Hrun & Hpkgs & Hfiles & _).
  pose proof (Forall2_length _ _ _ Hns) as Hlen.
  apply Forall2_cons_inv_l in Hns as (n0 & ns' & Hn0 & _ & ->).
  set (pk' := pkg_setName (ast.PkgName t0)
                (pkg_setFiles (zip (n0 :: ns')
                                   (seq (List.length (files s)) (List.length (n0 :: ns')))) pk))
    in *.
  assert (Hlk : pkgs s' !! p = Some pk').
  { rewrite Hpkgs. apply list_lookup_insert_eq. by eapply lookup_lt_Some. }
  exists s'. split; [done|]. split; [|split; [|split; [|done]]].
  - eapply (Parse_first_present W p s' pk' f0 rest n0); [done | done | done |].
    cbn. by rewrite String.eqb_refl.
  - unfold fileNamesOf. rewrite Hlk. cbn [fmap option_fmap option_map]. f_equal.
    unfold pk', Data.Keys. cbn [Files pkg_setName pkg_setFiles].
    apply fst_zip. rewrite length_seq. done.
  - unfold nameOf. by rewrite Hlk.
Qed.

Lemma Parse_loads_once_witness :
  exists s',
    Parse SampleGood.world 0 SampleDir.created = Done None s' /\
    Parse SampleGood.world 0 s' = Done None s' /\
    fileNamesOf 0 s' = Some ["a"; "c"] /\
    nameOf 0 s' = Some "q" /\
    files s' = [mkFile 0 "a" (Some SampleDir.tree) Data.empty;
                mkFile 0 "c" (Some SampleDir.tree) Data.empty].
Proof.
  refine (Parse_loads_once SampleGood.world 0 SampleDir.created _ "q/a.go" ["q/c.go"]
            ["a"; "c"] SampleDir.tree eq_refl eq_refl eq_refl _ _ _ eq_refl).
  - repeat constructor.
  - apply NoDup_cons. split; [|apply NoDup_singleton].
    rewrite list_elem_of_singleton. discriminate.
  - repeat constructor.
Defined.

(** *** [Inspect] *)

Lemma then_ret_inv {A B : Type} (m : M A) (b : B) s x s' :
  (m ;;; ret b) s = Done x s' -> x = b.
Proof. intros H. apply bind_inv in H as (a & s1 & _ & H). by injection H. Qed.

Lemma File_Inspect_range_no_error W fuel f decls : forall s e s',
  File_Inspect_range W fuel f decls None s = Done e s' -> e = None.
Proof.
  induction decls as [|d rest IH]; intros s e s'; cbn [File_Inspect_range].
  - by intros [= <- _].
  - intros H. apply bind_inv in H as (err & s1 & Hd & H).
    assert (err = None) as ->; [|by eapply IH].
    destruct d as [decl|tok specs|]; [by injection Hd| |by injection Hd].
    destruct tok; try (by injection Hd); by eapply then_ret_inv.
Qed.

Lemma File_Inspect_no_error W fuel f s e s' :
  File_Inspect W fuel f s = Done e s' -> e = None.
Proof.
  unfold File_Inspect. run. destruct (files s !! f) as [fl|]; [|done].
  destruct (f_t fl); [apply File_Inspect_range_no_error | by intros [= <- _]].
Qed.

Lemma Inspect_range_Next W fuel fs : forall s r s',
  Inspect_range W fuel fs s = Done r s' -> r = Next.
Proof.
  induction fs as [|f rest IH]; intros s r s'; cbn [Inspect_range].
  - by intros [= <- _].
  - intros H. apply bind_inv in H as (err & s1 & Hf & H).
    apply File_Inspect_no_error in Hf as ->. by eapply IH.
Qed.

(** X4.  [Inspect] has two ways to return.  Either parsing failed: then
    it returns no package and the parser's error.  Or it returns the
    package it created, at a fresh address, with no error and marked as
    inspected.  No other error can come out of it: the inspection of the
    files never reports one. *)
Theorem Inspect_outcomes (W : World) (fuel : nat) (PkgPath : string) (s : State)
        (q : option PkgRef) (e : option error) (s' : State) :
  Inspect W fuel PkgPath s = Done (q, e) s' ->
  (q = None /\ exists msg, e = Some (ParseError msg)) \/
  (q = Some (List.length (pkgs s)) /\ e = None /\
   forall pk, pkgs s' !! List.length (pkgs s) = Some pk -> p_i pk = true).
Proof.
  unfold Inspect, NewPackage. run. intros H.
  apply bind_inv in H as (err & s1 & HP & H). destruct err as [err|].
  - injection H as <- <- <-. left. split; [done|].
    apply Parse_error in HP as [msg ->]. by exists msg.
  - revert H. run. destruct (pkgs s1 !! List.length (pkgs s)) as [pk1|]; [|done].
    intros H. apply bind_inv in H as (r & s2 & Hr & H).
    apply Inspect_range_Next in Hr as ->. revert H. unfold setPkg. run.
    intros [= <- <- <-]. right. split; [done|]. split; [done|]. stores.
    intros pk. rewrite list_lookup_alter_eq.
    destruct (pkgs s2 !! List.length (pkgs s)) as [pk2|]; [|done].
    by intros [= <-].
Qed.

Lemma Inspect_outcomes_witness :
  (exists s', Inspect SampleDir.world 0 "q" SampleDir.empty
              = Done (None, Some (ParseError "expected declaration")) s') /\
  (exists s' pk, Inspect SampleGood.world 2 "q" SampleDir.empty = Done (Some 0, None) s' /\
                 pkgs s' !! 0 = Some pk /\ p_i pk = true).
Proof.
  split.
  - destruct (Inspect SampleDir.world 0 "q" SampleDir.empty) as [[q e] s'| |] eqn:E;
      [|vm_compute in E; discriminate..].
    destruct (Inspect_outcomes _ _ _ _ _ _ _ E) as [[-> [msg ->]]|(-> & -> & _)];
      vm_compute in E; [|discriminate]. injection E as -> <-. by eexists.
  - destruct (Inspect SampleGood.world 2 "q" SampleDir.empty) as [[q e] s'| |] eqn:E;
      [|vm_compute in E; discriminate..].
    destruct (Inspect_outcomes _ _ _ _ _ _ _ E) as [[-> [msg ->]]|(-> & -> & Hi)];
      [vm_compute in E; discriminate|].
    destruct (pkgs s' !! 0) as [pk|] eqn:Hpk.
    + exists s', pk. split; [done|]. split; [done|]. by apply Hi.
    + vm_compute in E. injection E as <-. vm_compute in Hpk. discriminate.
Defined.

(** *** Resolving names *)

Lemma alter_Types (g : Package -> Package) (p q : PkgRef) (l : list Package) :
  (forall pk, Types (g pk) = Types pk) ->
  Types <$> alter g p l !! q = Types <$> l !! q.
Proof.
  intros Hg. destruct (decide (p = q)) as [<-|Hne].
  - rewrite list_lookup_alter_eq. destruct (l !! p) as [pk|]; [|done]. simpl. by rewrite Hg.
  - by rewrite list_lookup_alter_ne.
Qed.

(** [Parse] reads files and names the package; it never writes to a
    Types table. *)
Lemma Parse_range_Types W p fs : forall s r s',
  Parse_range W p fs s = Done r s' ->
  forall q, Types <$> pkgs s' !! q = Types <$> pkgs s !! q.
Proof.
  induction fs as [|f rest IH]; intros s r s'; cbn [Parse_range].
  - by intros [= _ <-].
  - destruct (fileName f) as [n|]; [|done]. run.
    destruct (pkgs s !! p) as [pk|]; [|done].
    destruct (Data.Get (Files pk) n); [by intros [= _ <-]|]. run.
    destruct (parser_ParseFile W f) as [t [msg|]]; run; intros H q.
    + injection H as _ <-. stores. by apply alter_Types.
    + rewrite (IH _ _ _ H q). stores. by apply alter_Types.
Qed.

Lemma Parse_Types W p s e s' :
  Parse W p s = Done e s' ->
  forall q, Types <$> pkgs s' !! q = Types <$> pkgs s !! q.
Proof.
  unfold Parse. run. destruct (pkgs s !! p) as [pk|]; [|done].
  intros H. apply bind_inv in H as (r & s1 & Hr & H).
  pose proof (Parse_range_Types W p _ _ _ _ Hr) as H1. destruct r as [|err].
  - revert H. run. destruct (pkgs s1 !! p) as [pk1|]; [|done].
    destruct (0 <? Data.Len (Files pk1)); [|by intros [= _ <-]]. run.
    destruct (Data.Index (Files pk1) 0) as [f0|]; [|done]. run.
    destruct (files s1 !! f0) as [fl|]; [|done]. run.
    destruct (f_t fl); [|done]. unfold setPkg. run. intros [= _ <-] q. stores.
    rewrite <- H1. by apply alter_Types.
  - by injection H as _ <-.
Qed.

(** X5.  [GetType] resolves a name only from the tables as they are.
    When it returns a Type, it returns no error and has changed nothing;
    in particular the [Parse] it forces on an imported package never
    leads to a Type, because [Parse] adds no Type to any table. *)
Theorem GetType_resolves_without_loading (W : World) (f : FileRef) (name : string)
        (s : State) (t : TypeRef) (e : option error) (s' : State) :
  GetType W f name s = Done (Some t, e) s' ->
  e = None /\ s' = s.
Proof.
  unfold GetType. run.
  destruct (Data.Get (BuiltinTypes s) name); [by intros [= _ <- <-]|]. run.
  destruct (files s !! f) as [fl|]; [|done]. run.
  destruct (pkgs s !! f_p fl) as [pk|]; [|done].
  destruct (Data.Get (Types pk) name); [by intros [= _ <- <-]|].
  destruct (strings.Split name ".") as [|part0 [|part1 rest]]; [done..|].
  destruct (Data.Get (f_i fl) part0) as [imp|]; [|done]. run.
  destruct (imports s !! imp) as [i|]; [|done]. run.
  destruct (i_pkg i) as [q|]; [|done]. run.
  destruct (pkgs s !! q) as [qk|] eqn:Hqk; [|done].
  destruct (Data.Get (Types qk) part1) eqn:Hget; [by intros [= _ <- <-]|].
  intros H. apply bind_inv in H as (err & s1 & HP & H). destruct err; [done|].
  revert H. run. pose proof (Parse_Types _ _ _ _ _ HP q) as HT. rewrite Hqk in HT.
  destruct (pkgs s1 !! q) as [qk'|]; [|done]. injection HT as HT.
  by rewrite HT, Hget.
Qed.

Lemma GetType_resolves_without_loading_witness :
  GetType Sample.world 0 "int" Sample.start = Done (Some Sample.int_t, None) Sample.start.
Proof.
  destruct (GetType Sample.world 0 "int" Sample.start) as [[[t|] e] s'| |] eqn:E;
    try (vm_compute in E; discriminate).
  destruct (GetType_resolves_without_loading _ _ _ _ _ _ _ E) as [-> ->].
  vm_compute in E. by injection E as <-.
Defined.

Lemma GetType_unqualified W f name s fl pk :
  files s !! f = Some fl ->
  pkgs s !! f_p fl = Some pk ->
  contains "." name = false ->
  GetType W f name s
  = Done (match Data.Get (BuiltinTypes s) name with
          | Some t => Some t
          | None => Data.Get (Types pk) name
          end, None) s.
Proof.
  intros Hf Hp Hq. unfold GetType. run.
  destruct (Data.Get (BuiltinTypes s) name); [done|]. run. rewrite Hf. run. rewrite Hp.
  destruct (Data.Get (Types pk) name); [done|]. by rewrite (Split_unqualified _ _ Hq).
Qed.

(** X6.  An identifier that carries no link to its declaration (as in
    every tree that [Parse] stores) and no qualifier is resolved by three
    lookups, in this order, and nothing else: the builtin values, the
    builtin types, the Types table of the package.  The state does not
    change, and the Values table of the package is not consulted: the
    name of a declared constant or variable resolves to nil. *)
Theorem TypeIdent_without_object (W : World) (fuel : nat) (f : FileRef) (name : string)
        (s : State) (fl : File) (pk : Package) :
  files s !! f = Some fl ->
  pkgs s !! f_p fl = Some pk ->
  contains "." name = false ->
  let e := ast.IdentExpr (ast.Build_Ident name None) in
  (forall v val,
      Data.Get (BuiltinValues s) name = Some v -> values s !! v = Some val ->
      TypeExpr W (S fuel) f e s = Done (v_typ val) s) /\
  (Data.Get (BuiltinValues s) name = None ->
   TypeExpr W (S fuel) f e s
   = Done (match Data.Get (BuiltinTypes s) name with
           | Some t => Some t
           | None => Data.Get (Types pk) name
           end) s).
Proof.
  intros Hf Hp Hq e. cbn [TypeExpr TypeExpr_body e]. unfold TypeIdent. split.
  - intros v val Hv Hval. run. cbn [ast.Name]. rewrite Hv. run. by rewrite Hval.
  - intros Hv. run. cbn [ast.Name ast.Obj]. rewrite Hv.
    rewrite (bind_Done _ _ _ _ _ (GetType_unqualified W f name s fl pk Hf Hp Hq)).
    cbn [fst]. by destruct (Data.Get (BuiltinTypes s) name), (Data.Get (Types pk) name).
Qed.

Lemma TypeIdent_without_object_witness :
  TypeExpr Sample.world 1 0 (Sample.name "true") SampleDeclared.state
  = Done (Some Sample.bool_t) SampleDeclared.state /\
  TypeExpr Sample.world 1 0 (Sample.name "x") SampleDeclared.state
  = Done None SampleDeclared.state.
Proof.
  split.
  - refine (proj1 (TypeIdent_without_object Sample.world 0 0 "true" SampleDeclared.state
                     _ _ _ _ _) 0 (mkValue None CONST "true" (Some Sample.bool_t)) _ _);
      by vm_compute.
  - exact (proj2 (TypeIdent_without_object Sample.world 0 0 "x" SampleDeclared.state
                    _ _ eq_refl eq_refl eq_refl) eq_refl).
Defined.

(** ** The outputs of a call, by position *)

Lemma assignOuts_spec outs : forall i types s,
  assignOuts i outs types s
  = if decide (outs = [] \/ i + List.length outs <= List.length types)
    then Done (take i types ++ (Some <$> outs) ++ drop (i + List.length outs) types) s
    else Panic out_of_range.
Proof.
  induction outs as [|t rest IH]; intros i types s; cbn [assignOuts].
  - rewrite decide_True by auto. cbn. by rewrite Nat.add_0_r, take_drop.
  - destruct (i <? List.length types) eqn:Hi.
    + apply Nat.ltb_lt in Hi. rewrite IH, length_insert. cbn [List.length].
      destruct (decide (rest = [] \/ S i + List.length rest <= List.length types)) as [H|H].
      * rewrite decide_True.
        2:{ right. destruct H as [->|H]; simpl; lia. }
        f_equal. rewrite (take_S_r _ _ (Some t)) by (by apply list_lookup_insert_eq).
        rewrite take_insert_ge by lia. rewrite drop_insert_lt by lia.
        replace (S i + List.length rest) with (i + S (List.length rest)) by lia.
        by rewrite <- app_assoc.
      * rewrite decide_False; [done|]. intros [?|?]; [done|]. apply H. right. lia.
    + apply Nat.ltb_ge in Hi. rewrite decide_False; [done|].
      intros [?|?]; [done|]. simpl in *. lia.
Qed.

(** X7.  The output Types of a callee are written into a list with one
    slot per new name.  With at most as many outputs as names they fill
    the first slots in order and the remaining slots stay nil; with more
    outputs than names the loop writes past the list and panics. *)
Theorem assignOuts_bounds (num : nat) (outs : list TypeRef) (s : State) :
  assignOuts 0 outs (replicate num None) s
  = if decide (List.length outs <= num)
    then Done ((Some <$> outs) ++ replicate (num - List.length outs) None) s
    else Panic out_of_range.
Proof.
  rewrite assignOuts_spec, length_replicate. cbn [take app Nat.add].
  destruct (decide (List.length outs <= num)) as [H|H].
  - rewrite decide_True by auto. by rewrite drop_replicate.
  - rewrite decide_False; [done|]. intros [->|?]; [simpl in H|]; lia.
Qed.

(** ** Declarations that are already known *)

Lemma InspectValues_range_declared W self f k specs : forall prior s,
  Forall (fun sp => all_declared f sp s) specs ->
  InspectValues_range W self f k prior specs s = Done tt s.
Proof.
  induction specs as [|sp rest IH]; intros prior s Hall; cbn [InspectValues_range]; [done|].
  apply Forall_cons in Hall as [(vs & fl & pk & -> & Hf & Hp & Hnames) Hall].
  run. rewrite Hf. run. rewrite Hp.
  assert (Hnone : omap id ((fun n => match Data.Get (Values pk) (ast.Name n) with
                                     | None => Some n
                                     | Some _ => None
                                     end) <$> ast.Names vs) = []).
  { induction Hnames as [|n ns [v Hv] _ IHn]; [done|]. cbn. by rewrite Hv. }
  rewrite Hnone. cbn [List.length Nat.eqb]. by apply IH.
Qed.

(** X8.  When every name of every spec is already in the Values table of
    the package, [InspectValues] returns without an error and without
    looking at a single type or initializer: the state is as before. *)
Theorem InspectValues_declared_noop (W : World)
        (self : FileRef -> ast.Expr -> M (option TypeRef))
        (f : FileRef) (k : ValueKind) (specs : list ast.Spec) (s : State) :
  Forall (fun sp => all_declared f sp s) specs ->
  InspectValues W self f k specs s = Done None s.
Proof.
  intros Hall. unfold InspectValues.
  by rewrite (bind_Done _ _ _ _ _ (InspectValues_range_declared W self f k specs None s Hall)).
Qed.

Lemma InspectValues_declared_noop_witness :
  InspectValues Sample.world (TypeExpr Sample.world 2) 0 VAR SampleDeclared.var_x SampleDeclared.state
  = Done None SampleDeclared.state.
Proof.
  apply InspectValues_declared_noop. repeat constructor.
  eexists _, _, _. split; [reflexivity|]. split; [reflexivity|]. split; [reflexivity|].
  repeat constructor. eexists. reflexivity.
Defined.

(** ** Evaluation only adds to what is recorded *)

Lemma pkg_le_refl pk : pkg_le pk pk.
Proof. split; [done|]. by split. Qed.

Lemma pkg_le_trans a b c : pkg_le a b -> pkg_le b c -> pkg_le a c.
Proof.
  intros (P1 & T1 & V1) (P2 & T2 & V2). split; [congruence|]. split; eauto.
Qed.

Lemma pkg_le_addFile n x pk : pkg_le pk (pkg_addFile n x pk).
Proof. split; [done|]. by split. Qed.

Lemma pkg_le_setName n pk : pkg_le pk (pkg_setName n pk).
Proof. split; [done|]. by split. Qed.

Lemma pkg_le_addValue n v pk : pkg_le pk (pkg_addValue n v pk).
Proof.
  split; [done|]. split; [done|]. intros m Hm. cbn [Values pkg_addValue].
  destruct (decide (n = m)) as [->|Hne].
  - by rewrite Data_Get_Add_eq.
  - by rewrite Data_Get_Add_ne.
Qed.

(** Registering a Type under a name that is not in the table. *)
Lemma pkg_le_addType n t pk :
  Data.Get (Types pk) n = None -> pkg_le pk (pkg_addType n t pk).
Proof.
  intros Hn. split; [done|]. split; [|done]. intros m r Hm. cbn [Types pkg_addType].
  rewrite Data_Get_Add_ne; [done|]. congruence.
Qed.

Lemma extends_refl kv s : extends kv s s.
Proof.
  split; [done|]. split; [intros f x H; by exists x|].
  split; [|done]. intros q pk H. exists pk. split; [done | apply pkg_le_refl].
Qed.

Lemma extends_trans kv s1 s2 s3 : extends kv s1 s2 -> extends kv s2 s3 -> extends kv s1 s3.
Proof.
  intros (V1 & F1 & P1 & I1 & T1 & B1) (V2 & F2 & P2 & I2 & T2 & B2).
  split; [congruence|]. split.
  { intros f x H. destruct (F1 _ _ H) as (x1 & Hx1 & ? & ? & ?).
    destruct (F2 _ _ Hx1) as (x2 & Hx2 & ? & ? & ?). exists x2. repeat split; congruence. }
  split.
  { intros q pk H. destruct (P1 _ _ H) as (pk1 & Hx1 & L1).
    destruct (P2 _ _ Hx1) as (pk2 & Hx2 & L2). exists pk2. split; [done|].
    by eapply pkg_le_trans. }
  repeat split; congruence.
Qed.

Lemma extends_length kv s s' :
  extends kv s s' -> kv <= List.length (values s) -> kv <= List.length (values s').
Proof.
  intros [H _] Hk. apply (f_equal List.length) in H.
  rewrite (length_take_le (values s)) in H by done.
  rewrite length_take in H. lia.
Qed.

(** The state changes of the code, one by one. *)
Lemma extends_types kv g s : extends kv s (with_types g s).
Proof. exact (extends_refl kv s). Qed.

Lemma extends_funcs kv g s : extends kv s (with_funcs g s).
Proof. exact (extends_refl kv s). Qed.

Lemma extends_newPkg kv x s : extends kv s (with_pkgs (fun l => l ++ [x]) s).
Proof.
  split; [done|]. split; [intros f y H; by exists y|]. split; [|done].
  intros q pk H. exists pk. stores. split; [by apply lookup_app_l_Some | apply pkg_le_refl].
Qed.

Lemma extends_newFile kv x s : extends kv s (with_files (fun l => l ++ [x]) s).
Proof.
  split; [done|]. split.
  { intros f y H. exists y. stores. split; [by apply lookup_app_l_Some | done]. }
  split; [|done]. intros q pk H. exists pk. split; [done | apply pkg_le_refl].
Qed.

Lemma extends_newValue kv x s :
  kv <= List.length (values s) -> extends kv s (with_values (fun l => l ++ [x]) s).
Proof.
  intros Hk. split; [stores; by apply take_app_le|].
  split; [intros f y H; by exists y|]. split; [|done].
  intros q pk H. exists pk. split; [done | apply pkg_le_refl].
Qed.

Lemma extends_setValue kv v g s : kv <= v -> extends kv s (with_values (alter g v) s).
Proof.
  intros Hk. split; [stores; by apply take_alter_ge|].
  split; [intros f y H; by exists y|]. split; [|done].
  intros q pk H. exists pk. split; [done | apply pkg_le_refl].
Qed.

Lemma extends_setPkg kv p g s :
  (forall pk, pkgs s !! p = Some pk -> pkg_le pk (g pk)) ->
  extends kv s (with_pkgs (alter g p) s).
Proof.
  intros Hg. split; [done|]. split; [intros f y H; by exists y|]. split; [|done].
  intros q pk H. stores. destruct (decide (q = p)) as [->|Hne].
  - exists (g pk). rewrite list_lookup_alter_eq, H. split; [done | by apply Hg].
  - exists pk. rewrite list_lookup_alter_ne by done. split; [done | apply pkg_le_refl].
Qed.

Lemma extends_setFile kv f t s : extends kv s (with_files (alter (file_setT t) f) s).
Proof.
  split; [done|]. split.
  { intros g y H. stores. destruct (decide (g = f)) as [->|Hne].
    - exists (file_setT t y). rewrite list_lookup_alter_eq, H. by repeat split.
    - exists y. rewrite list_lookup_alter_ne by done. by repeat split. }
  split; [|done]. intros q pk H. exists pk. split; [done | apply pkg_le_refl].
Qed.

Section Holds.

Context {A B : Type} (kv : nat).

Lemma holds_ret (a : A) : holds kv (ret a).
Proof. intros s a' s' [= <- <-] _. apply extends_refl. Qed.

Lemma holds_panic msg : holds kv (@panic A msg).
Proof. by intros s a s' H. Qed.

Lemma holds_bind (m : M A) (g : A -> M B) :
  holds kv m -> (forall a, holds kv (g a)) -> holds kv (bind m g).
Proof.
  intros Hm Hg s b s' H Hk. apply bind_inv in H as (a & s1 & H1 & H2).
  pose proof (Hm _ _ _ H1 Hk) as E1.
  eapply extends_trans; [exact E1|]. eapply Hg; [exact H2|]. by eapply extends_length.
Qed.

Lemma holds_deref (o : option A) : holds kv (deref o).
Proof. destruct o; [apply holds_ret | apply holds_panic]. Qed.

Lemma holds_newValue x (g : ValueRef -> M B) :
  (forall v, kv <= v -> holds kv (g v)) -> holds kv (bind (newValue x) g).
Proof.
  intros Hg s b s' H Hk. revert H. run. intros H.
  eapply extends_trans; [by apply (extends_newValue kv x)|].
  eapply (Hg _ Hk); [exact H|]. stores. rewrite length_app. lia.
Qed.

End Holds.

Lemma holds_get kv : holds kv get.
Proof. intros s a s' [= <- <-] _. apply extends_refl. Qed.

Lemma holds_newType kv x : holds kv (newType x).
Proof. intros s a s' [= <- <-] _. apply extends_types. Qed.

Lemma holds_newFunc kv x : holds kv (newFunc x).
Proof. intros s a s' [= <- <-] _. apply extends_funcs. Qed.

Lemma holds_setFunc kv fn g : holds kv (setFunc fn g).
Proof. intros s a s' [= _ <-] _. apply extends_funcs. Qed.

Lemma holds_newPkg kv x : holds kv (newPkg x).
Proof. intros s a s' [= <- <-] _. apply extends_newPkg. Qed.

Lemma holds_newFile kv x : holds kv (newFile x).
Proof. intros s a s' [= <- <-] _. apply extends_newFile. Qed.

Lemma holds_setValue kv v g : kv <= v -> holds kv (setValue v g).
Proof. intros Hv s a s' [= _ <-] _. by apply extends_setValue. Qed.

Lemma holds_setPkg kv p g : (forall pk, pkg_le pk (g pk)) -> holds kv (setPkg p g).
Proof. intros Hg s a s' [= _ <-] _. apply extends_setPkg. intros pk _. apply Hg. Qed.

Lemma holds_setFile kv f t : holds kv (setFile f (file_setT t)).
Proof. intros s a s' [= _ <-] _. apply extends_setFile. Qed.

(** Decomposing a computation into the steps above. *)
Ltac holds_step :=
  match goal with
  | |- holds _ (bind (newValue _) _) => apply holds_newValue; intros
  | |- holds _ (bind _ _) => apply holds_bind; [|intros]
  | |- holds _ (ret _) => apply holds_ret
  | |- holds _ (panic _) => apply holds_panic
  | |- holds _ (deref _) => apply holds_deref
  | |- holds _ get => apply holds_get
  | |- holds _ (newType _) => apply holds_newType
  | |- holds _ (newFunc _) => apply holds_newFunc
  | |- holds _ (newPkg _) => apply holds_newPkg
  | |- holds _ (newFile _) => apply holds_newFile
  | |- holds _ (setFunc _ _) => apply holds_setFunc
  | |- holds _ (setFile _ (file_setT _)) => apply holds_setFile
  | |- holds _ (setValue _ _) => apply holds_setValue; lia
  | |- holds _ (setPkg _ (pkg_addFile _ _)) => apply holds_setPkg, pkg_le_addFile
  | |- holds _ (setPkg _ (pkg_addValue _ _)) => apply holds_setPkg, pkg_le_addValue
  | |- holds _ (setPkg _ (pkg_setName _)) => apply holds_setPkg, pkg_le_setName
  | |- holds _ (match ?x with _ => _ end) => destruct x
  | |- holds _ (let '(_, _) := ?x in _) => destruct x
  end.

Ltac holds_auto :=
  unfold getPkg, getFile, getType, getValue, getImport, getFunc, NewFile, NewPackage,
         on_nil;
  repeat holds_step.

Lemma typePointer_holds kv f t : holds kv (typePointer f t).
Proof.
  intros s a s' H Hk. revert H. unfold typePointer. run.
  destruct t as [tr|]; [|done]. run.
  destruct (types s !! tr) as [ty|]; [|done]. run.
  destruct (files s !! f) as [fl|]; [|done]. run.
  destruct (pkgs s !! f_p fl) as [pk|] eqn:Hp; [|done].
  destruct (Data.Get (Types pk) (String "*" (t_name ty))) as [t'|] eqn:Hg.
  - intros [= _ <-]. apply extends_refl.
  - run. intros [= _ <-].
    eapply extends_trans; [apply extends_types|]. apply extends_setPkg.
    stores. intros pk' Hp'. assert (pk' = pk) as -> by congruence. by apply pkg_le_addType.
Qed.

Section HoldsEngine.

Context (W : World) (kv : nat).

Lemma Parse_range_holds p fs : holds kv (Parse_range W p fs).
Proof. induction fs as [|f rest IH]; cbn [Parse_range]; holds_auto; done. Qed.

Lemma Parse_holds p : holds kv (Parse W p).
Proof. unfold Parse. holds_auto; try apply Parse_range_holds. Qed.

Lemma GetType_holds f name : holds kv (GetType W f name).
Proof. unfold GetType. holds_auto; try apply Parse_holds. Qed.

Variable self : FileRef -> ast.Expr -> M (option TypeRef).
Hypothesis self_holds : forall f e, holds kv (self f e).

Lemma assignOuts_holds outs : forall i types, holds kv (assignOuts i outs types).
Proof. induction outs as [|t rest IH]; intros i types; cbn [assignOuts]; holds_auto. apply IH. Qed.

Lemma InspectValues_names_holds f vk typ types vals names :
  forall i, holds kv (InspectValues_names self f vk typ types vals i names).
Proof.
  induction names as [|[n|] rest IH]; intros i; cbn [InspectValues_names];
    holds_auto; try apply IH; apply self_holds.
Qed.

Lemma InspectValues_range_holds f vk specs :
  forall prior, holds kv (InspectValues_range W self f vk prior specs).
Proof.
  induction specs as [|sp rest IH]; intros prior; cbn [InspectValues_range]; [holds_auto|].
  holds_auto; try apply IH; try apply self_holds; try apply assignOuts_holds;
    try apply InspectValues_names_holds.
Qed.

Lemma InspectValue_holds f vk v : holds kv (InspectValue W self f vk v).
Proof.
  unfold InspectValue, InspectValues. holds_auto. apply InspectValues_range_holds.
Qed.

Lemma declaredValueTyp_holds f name : holds kv (declaredValueTyp f name).
Proof. unfold declaredValueTyp. holds_auto. Qed.

Lemma TypeIdent_holds f i : holds kv (TypeIdent W self f i).
Proof.
  unfold TypeIdent, InspectType, InspectFunc. holds_auto;
    try apply GetType_holds; try apply InspectValue_holds;
    try apply declaredValueTyp_holds.
Qed.

Lemma TypeFuncParams_holds f from fn side : holds kv (TypeFuncParams W self f from fn side).
Proof.
  destruct from as [fields|]; cbn [TypeFuncParams]; [|holds_auto].
  induction fields as [|field rest IH]; cbn [TypeFuncParams_range]; holds_auto;
    [apply self_holds | | apply IH].
  induction (ast.FieldNames field) as [|n names IHn]; cbn [TypeFuncParams_names];
    unfold paramsAdd; holds_auto. apply IHn.
Qed.

Lemma TypeExpr_body_holds f e : holds kv (TypeExpr_body W self f e).
Proof.
  unfold TypeExpr_body, TypePointer, TypeUnary, TypeBinary, TypeCall,
         TypeFunc, TypeArray, arrayType, TypeMap, TypeStruct.
  holds_auto;
    try apply self_holds; try apply TypeIdent_holds; try apply typePointer_holds;
    try apply TypeFuncParams_holds.
Qed.

End HoldsEngine.

Lemma TypeExpr_holds W kv fuel : forall f e, holds kv (TypeExpr W fuel f e).
Proof.
  induction fuel as [|fuel IH]; intros f e; cbn [TypeExpr]; [by intros s a s' H|].
  by apply TypeExpr_body_holds.
Qed.

Lemma take_length_prefix {A : Type} (l l' : list A) :
  take (List.length l) l' = take (List.length l) l -> l `prefix_of` l'.
Proof.
  rewrite (take_ge l) by done. remember (List.length l) as n. intros H.
  exists (drop n l'). by rewrite <- H, take_drop.
Qed.

(** X9.  Evaluating an expression only adds to the stores: the Types,
    Values and Funcs that exist stay as they are and new ones come after
    them, the Imports and the builtin tables are the same, every file
    keeps its package, its name and its Import table, and every package
    keeps its path, the entries of its Types table and the names of its
    Values table. *)
Theorem TypeExpr_only_adds (W : World) (fuel : nat) (f : FileRef) (e : ast.Expr)
        (s : State) (r : option TypeRef) (s' : State) :
  TypeExpr W fuel f e s = Done r s' ->
  types s `prefix_of` types s' /\
  values s `prefix_of` values s' /\
  funcs s `prefix_of` funcs s' /\
  imports s' = imports s /\
  BuiltinTypes s' = BuiltinTypes s /\
  BuiltinValues s' = BuiltinValues s /\
  (forall g x, files s !! g = Some x ->
               exists x', files s' !! g = Some x' /\
                          f_p x' = f_p x /\ f_name x' = f_name x /\ f_i x' = f_i x) /\
  (forall q pk, pkgs s !! q = Some pk ->
                exists pk', pkgs s' !! q = Some pk' /\ pkg_le pk pk').
Proof.
  intros H.
  destruct (TypeExpr_keeps W (List.length (funcs s)) fuel f e s r s' H (le_n _)) as [Hfn Hty].
  destruct (TypeExpr_holds W (List.length (values s)) fuel f e s r s' H (le_n _))
    as (Hv & Hf & Hp & Hi & Hbt & Hbv).
  split; [exact Hty|]. split; [by apply take_length_prefix|].
  split; [by apply take_length_prefix|]. by repeat (split; [done|]).
Qed.

Lemma TypeExpr_only_adds_witness :
  exists r s',
    TypeExpr Sample.world 2 0 (ast.StarExpr (Sample.name "int")) SampleDeclared.state
    = Done r s' /\
    types SampleDeclared.state `prefix_of` types s' /\
    values SampleDeclared.state `prefix_of` values s'.
Proof.
  destruct (TypeExpr Sample.world 2 0 (ast.StarExpr (Sample.name "int"))
              SampleDeclared.state) as [r s'| |] eqn:E;
    try (vm_compute in E; discriminate).
  exists r, s'. split; [done|].
  destruct (TypeExpr_only_adds _ _ _ _ _ _ _ E) as (Ht & Hv & _). by split.
Defined.

(** ** An interned pointer Type stays interned *)

Lemma typePointer_inv f t s r s1 :
  typePointer f (Some t) s = Done r s1 ->
  exists ty fl pk tr,
    r = Some tr /\ types s1 !! t = Some ty /\ files s1 !! f = Some fl /\
    pkgs s1 !! f_p fl = Some pk /\
    Data.Get (Types pk) (String "*" (t_name ty)) = Some tr.
Proof.
  unfold typePointer. run. destruct (types s !! t) as [ty|] eqn:Ht; [|done]. run.
  destruct (files s !! f) as [fl|] eqn:Hf; [|done]. run.
  destruct (pkgs s !! f_p fl) as [pk|] eqn:Hp; [|done].
  destruct (Data.Get (Types pk) (String "*" (t_name ty))) as [t'|] eqn:Hg.
  - intros [= <- <-]. by exists ty, fl, pk, t'.
  - run. intros [= <- <-].
    exists ty, fl, (pkg_addType (String "*" (t_name ty)) (List.length (types s)) pk),
      (List.length (types s)).
    stores. split; [done|]. split; [by apply lookup_app_l_Some|]. split; [done|]. split.
    + by rewrite list_lookup_alter_eq, Hp.
    + apply Data_Get_Add_eq.
Qed.

Lemma typePointer_hit f t s ty fl pk tr :
  types s !! t = Some ty ->
  files s !! f = Some fl ->
  pkgs s !! f_p fl = Some pk ->
  Data.Get (Types pk) (String "*" (t_name ty)) = Some tr ->
  typePointer f (Some t) s = Done (Some tr) s.
Proof.
  intros Ht Hf Hp Hg. unfold typePointer. run. rewrite Ht. run. rewrite Hf. run.
  by rewrite Hp, Hg.
Qed.

(** X10.  Once [typePointer] has returned the pointer Type of [t] for a
    file, no evaluation of an expression, from whatever file, makes it
    forget: asked again afterwards it returns the same instance and
    allocates nothing. *)
Theorem typePointer_stays_interned (W : World) (fuel : nat) (f g : FileRef) (t : TypeRef)
        (e : ast.Expr) (s s1 s2 : State) (r r' : option TypeRef) :
  typePointer f (Some t) s = Done r s1 ->
  TypeExpr W fuel g e s1 = Done r' s2 ->
  typePointer f (Some t) s2 = Done r s2.
Proof.
  intros H1 H2. apply typePointer_inv in H1 as (ty & fl & pk & tr & -> & Ht & Hf & Hp & Hg).
  destruct (TypeExpr_keeps W 0 fuel g e s1 r' s2 H2 (Nat.le_0_l _)) as [_ Hty].
  destruct (TypeExpr_holds W 0 fuel g e s1 r' s2 H2 (Nat.le_0_l _)) as (_ & HF & HP & _).
  destruct (HF _ _ Hf) as (fl' & Hf' & Hfp & _).
  destruct (HP _ _ Hp) as (pk' & Hp' & _ & HT & _).
  eapply typePointer_hit; [by eapply prefix_lookup_Some | exact Hf' | by rewrite Hfp | by apply HT].
Qed.

Lemma typePointer_stays_interned_witness :
  exists r s1 r' s2,
    typePointer 0 (Some Sample.int_t) Sample.start = Done r s1 /\
    TypeExpr Sample.world 3 1
      (ast.CompositeLit (Some (ast.MapType (Sample.name "string")
                                           (ast.StarExpr (Sample.name "bool")))) []) s1
    = Done r' s2 /\
    typePointer 0 (Some Sample.int_t) s2 = Done r s2.
Proof.
  destruct (typePointer 0 (Some Sample.int_t) Sample.start) as [r s1| |] eqn:E1;
    try (vm_compute in E1; discriminate).
  destruct (TypeExpr Sample.world 3 1
              (ast.CompositeLit (Some (ast.MapType (Sample.name "string")
                                                   (ast.StarExpr (Sample.name "bool")))) [])
              s1) as [r' s2| |] eqn:E2;
    try (vm_compute in E1; injection E1 as <- <-; vm_compute in E2; discriminate).
  exists r, s1, r', s2. split; [done|]. split; [done|].
  exact (typePointer_stays_interned _ _ _ _ _ _ _ _ _ _ _ E1 E2).
Defined.

(** ** Inspecting the same value declarations again *)

Lemma getFile_inv f s x s' : getFile f s = Done x s' -> s' = s /\ files s !! f = Some x.
Proof. unfold getFile. run. destruct (files s !! f); [|done]. by intros [= <- <-]. Qed.

Lemma getPkg_inv p s x s' : getPkg p s = Done x s' -> s' = s /\ pkgs s !! p = Some x.
Proof. unfold getPkg. run. destruct (pkgs s !! p); [|done]. by intros [= <- <-]. Qed.

Lemma is_declared_extends kv f n s s' :
  extends kv s s' -> is_declared f n s -> is_declared f n s'.
Proof.
  intros (_ & HF & HP & _) (fl & pk & Hf & Hp & Hn).
  destruct (HF _ _ Hf) as (fl' & Hf' & Hfp & _).
  destruct (HP _ _ Hp) as (pk' & Hp' & _ & _ & HV).
  exists fl', pk'. rewrite Hfp. auto.
Qed.

Section Declares.

Context (W : World).
Variable self : FileRef -> ast.Expr -> M (option TypeRef).
Hypothesis self_holds : forall f e, holds 0 (self f e).

(** Every name that the last loop of [InspectValues] is given ends up in
    the Values table. *)
Lemma InspectValues_names_declares f k typ types vals names : forall i s u s',
  InspectValues_names self f k typ types vals i names s = Done u s' ->
  forall n, Some n ∈ names -> is_declared f (ast.Name n) s'.
Proof.
  induction names as [|[n0|] rest IH]; intros i s u s'; cbn [InspectValues_names].
  - intros _ n Hn. by apply elem_of_nil in Hn.
  - intros H n Hn.
    apply bind_inv in H as (val & s1 & H1 & H).
    apply bind_inv in H as (fl & s2 & H2 & H). apply getFile_inv in H2 as [-> Hf].
    apply bind_inv in H as (pk & s3 & H3 & H). apply getPkg_inv in H3 as [-> Hp].
    apply bind_inv in H as (u4 & s4 & H4 & H).
    apply bind_inv in H as (u5 & s5 & H5 & H6).
    apply elem_of_cons in Hn as [[= ->]|Hn]; [|by eapply IH].
    eapply (is_declared_extends 0).
    { eapply InspectValues_names_holds; [exact self_holds | exact H6 | lia]. }
    eapply (is_declared_extends 0).
    { match type of H5 with
      | ?m s4 = _ => assert (Hm : holds 0 m) by (holds_auto; apply self_holds)
      end.
      eapply Hm; [exact H5 | lia]. }
    injection H1 as <- <-. injection H4 as <- <-.
    exists fl, (pkg_addValue (ast.Name n0) (List.length (values s)) pk).
    stores. split; [done|]. split; [by rewrite list_lookup_alter_eq, Hp|].
    cbn [Values pkg_addValue]. by rewrite Data_Get_Add_eq.
  - intros H n Hn. apply elem_of_cons in Hn as [[=]|Hn]. by eapply IH.
Qed.

Lemma InspectValues_range_declares f k specs : forall prior s u s',
  InspectValues_range W self f k prior specs s = Done u s' ->
  Forall (fun sp => all_declared f sp s') specs.
Proof.
  induction specs as [|sp rest IH]; intros prior s u s' H0; [constructor|].
  pose proof (InspectValues_range_holds W 0 self self_holds f k (sp :: rest) prior
                s u s' H0 (Nat.le_0_l _)) as (_ & HF & HP & _).
  revert H0. cbn [InspectValues_range]. intros H.
  apply bind_inv in H as (vals & s1 & H1 & H).
  destruct sp as [|vs|]; try done. injection H1 as <- <-.
  apply bind_inv in H as (fl & s2 & H2 & H). apply getFile_inv in H2 as [-> Hf].
  apply bind_inv in H as (pk & s3 & H3 & H). apply getPkg_inv in H3 as [-> Hp].
  destruct (HF _ _ Hf) as (fl' & Hf' & Hfp & _).
  destruct (HP _ _ Hp) as (pk' & Hp' & _ & _ & HV).
  cbv zeta in H.
  set (names := (fun n => match Data.Get (Values pk) (ast.Name n) with
                          | None => Some n
                          | Some _ => None
                          end) <$> ast.Names vs) in H.
  assert (Hnew : forall n, n ∈ ast.Names vs ->
                           Data.Get (Values pk) (ast.Name n) = None -> Some n ∈ names).
  { intros n Hn Hg. apply list_elem_of_fmap. exists n. by rewrite Hg. }
  destruct (List.length (omap id names) =? 0) eqn:Hnum.
  - apply Forall_cons. split; [|by eapply IH].
    exists vs, fl', pk'. split; [done|]. split; [done|]. split; [by rewrite Hfp|].
    apply Forall_forall. intros n Hn. apply HV.
    destruct (Data.Get (Values pk) (ast.Name n)) eqn:Hg; [done|]. exfalso.
    apply Nat.eqb_eq, nil_length_inv in Hnum.
    assert (Hin : n ∈ omap id names).
    { apply list_elem_of_omap. exists (Some n). split; [by apply Hnew | done]. }
    rewrite Hnum in Hin. by apply elem_of_nil in Hin.
  - apply bind_inv in H as ([typ prior'] & s1 & H1 & H).
    apply bind_inv in H as (types & s2 & H2 & H).
    apply bind_inv in H as (u3 & s3 & H3 & H4).
    apply Forall_cons. split; [|by eapply IH].
    exists vs, fl', pk'. split; [done|]. split; [done|]. split; [by rewrite Hfp|].
    apply Forall_forall. intros n Hn.
    destruct (Data.Get (Values pk) (ast.Name n)) eqn:Hg; [apply HV; by rewrite Hg|].
    assert (is_declared f (ast.Name n) s') as (fl2 & pk2 & Hf2 & Hp2 & Hn2).
    { eapply (is_declared_extends 0).
      { eapply InspectValues_range_holds; [exact self_holds | exact H4 | lia]. }
      eapply InspectValues_names_declares; [exact H3 | by apply Hnew]. }
    assert (fl2 = fl') as -> by congruence. rewrite Hfp in Hp2.
    by assert (pk2 = pk') as -> by congruence.
Qed.

End Declares.

(** X11.  [InspectValues] is idempotent: when it has returned, every
    name of every spec is in the Values table of the package, so that
    running it again on the same specs, whatever the expressions
    evaluate to by then, returns nil and changes nothing.  It never
    returns an error. *)
Theorem InspectValues_idempotent (W : World) (fuel : nat)
        (self' : FileRef -> ast.Expr -> M (option TypeRef))
        (f : FileRef) (k : ValueKind) (specs : list ast.Spec)
        (s : State) (r : option error) (s' : State) :
  InspectValues W (TypeExpr W fuel) f k specs s = Done r s' ->
  r = None /\
  Forall (fun sp => all_declared f sp s') specs /\
  InspectValues W self' f k specs s' = Done None s'.
Proof.
  unfold InspectValues at 1. intros H. apply bind_inv in H as (u & s1 & H1 & [= <- <-]).
  split; [done|].
  assert (Hall : Forall (fun sp => all_declared f sp s1) specs).
  { eapply InspectValues_range_declares; [|exact H1]. intros g e. apply TypeExpr_holds. }
  split; [done|]. unfold InspectValues.
  by rewrite (bind_Done _ _ _ _ _ (InspectValues_range_declared W self' f k specs None s1 Hall)).
Qed.

Lemma InspectValues_idempotent_witness :
  exists s',
    InspectValues Sample.world (TypeExpr Sample.world 3) 0 CONST SampleConst.with_initializers Sample.start
    = Done None s' /\
    InspectValues Sample.world (TypeExpr Sample.world 3) 0 CONST SampleConst.with_initializers s'
    = Done None s'.
Proof.
  destruct (InspectValues Sample.world (TypeExpr Sample.world 3) 0 CONST SampleConst.with_initializers
              Sample.start) as [r s'| |] eqn:E;
    try (vm_compute in E; discriminate).
  destruct (InspectValues_idempotent Sample.world 3 (TypeExpr Sample.world 3) _ _ _ _ _ _ E)
    as (-> & _ & H).
  by exists s'.
Defined.

(** ** Components that do not resolve *)

(** X12.  When an expression [X] evaluates to no Type (as the name of a
    type declared in the package does, since type declarations are not
    recorded), every expression that builds a Type from it panics on the
    nil Type: the pointer type [*X], the address [&X], a slice, array or
    variadic literal with element type [X], and a map literal with [X]
    as key or as value type. *)
Theorem unresolved_component_panics (W : World) (fuel : nat) (f : FileRef) (X : ast.Expr)
        (s s1 : State) :
  TypeExpr W fuel f X s = Done None s1 ->
  TypeExpr W (S fuel) f (ast.StarExpr X) s = Panic nil_deref /\
  TypeExpr W (S fuel) f (ast.UnaryExpr token.AND X) s = Panic nil_deref /\
  (forall Elts,
      TypeExpr W (S fuel) f (ast.CompositeLit (Some (ast.ArrayType None X)) Elts) s
      = Panic nil_deref) /\
  (forall k l Elts,
      TypeExpr W (S fuel) f
        (ast.CompositeLit (Some (ast.ArrayType (Some (ast.BasicLit k l)) X)) Elts) s
      = Panic nil_deref) /\
  (forall o Elts,
      TypeExpr W (S fuel) f
        (ast.CompositeLit (Some (ast.ArrayType (Some (ast.Ellipsis o)) X)) Elts) s
      = Panic nil_deref) /\
  (forall V Elts r s2,
      TypeExpr W fuel f V s1 = Done r s2 ->
      TypeExpr W (S fuel) f (ast.CompositeLit (Some (ast.MapType X V)) Elts) s
      = Panic nil_deref) /\
  (forall K Elts r s0,
      TypeExpr W fuel f K s0 = Done r s ->
      TypeExpr W (S fuel) f (ast.CompositeLit (Some (ast.MapType K X)) Elts) s0
      = Panic nil_deref).
Proof.
  intros H. cbn [TypeExpr TypeExpr_body].
  unfold TypePointer, TypeUnary, TypeArray, TypeMap, arrayType.
  repeat split; intros; rewrite ?(bind_Done _ _ _ _ _ H); try done.
  - rewrite (bind_Done _ _ _ _ _ H0). done.
  - rewrite (bind_Done _ _ _ _ _ H0), (bind_Done _ _ _ _ _ H). run.
    destruct r as [k|]; [|done]. run. by destruct (types s1 !! k).
Qed.

Lemma unresolved_component_panics_witness :
  TypeExpr Sample.world 2 0
    (ast.CompositeLit (Some (ast.ArrayType None (Sample.name "T"))) []) Sample.start
  = Panic nil_deref /\
  TypeExpr Sample.world 2 0
    (ast.UnaryExpr token.AND (ast.CompositeLit (Some (Sample.name "T")) [])) Sample.start
  = Panic nil_deref.
Proof.
  split.
  - exact (proj1 (proj2 (proj2 (unresolved_component_panics Sample.world 1 0
                                  (Sample.name "T") Sample.start Sample.start eq_refl))) []).
  - exact (proj1 (proj2 (unresolved_component_panics Sample.world 1 0
                           (ast.CompositeLit (Some (Sample.name "T")) [])
                           Sample.start Sample.start eq_refl))).
Defined.

(** X13.  The length of an array type has to be written as a literal:
    with any other length expression, a constant name or a product, say,
    [TypeArray] panics on its type assertion once the element type has
    been evaluated. *)
Theorem TypeArray_length_not_literal (W : World) (fuel : nat) (f : FileRef)
        (Len Elt : ast.Expr) (Elts : list ast.Expr) (s : State)
        (r : option TypeRef) (s1 : State) :
  TypeExpr W fuel f Elt s = Done r s1 ->
  isBasicLit Len = false ->
  (forall o, Len <> ast.Ellipsis o) ->
  TypeExpr W (S fuel) f (ast.CompositeLit (Some (ast.ArrayType (Some Len) Elt)) Elts) s
  = Panic bad_assert.
Proof.
  intros H Hlit Hell. cbn [TypeExpr TypeExpr_body]. unfold TypeArray.
  rewrite (bind_Done _ _ _ _ _ H). destruct Len; try done. by destruct (Hell Elt0).
Qed.

Lemma TypeArray_length_not_literal_witness :
  TypeExpr Sample.world 2 0
    (ast.CompositeLit (Some (ast.ArrayType (Some (Sample.name "N")) (Sample.name "int"))) [])
    Sample.start
  = Panic bad_assert.
Proof.
  apply (TypeArray_length_not_literal Sample.world 1 0 (Sample.name "N") (Sample.name "int")
           [] Sample.start (Some Sample.int_t) Sample.start); [reflexivity | reflexivity|].
  intros o. discriminate.
Defined.

(** ** Imports of the same path *)

Lemma InspectImports_alias_run f alias path s fl pk :
  files s !! f = Some fl ->
  pkgs s !! f_p fl = Some pk ->
  InspectImports f [ast.ImportS (ast.Build_ImportSpec (Some alias) path)] s
  = Done None
      (match Data.Get (Imports pk) path with
       | Some q =>
           mkState (pkgs s)
                   (alter (file_addImport (ast.Name alias) (List.length (imports s))) f (files s))
                   (types s) (values s)
                   (imports s ++ [mkImport f (ast.Name alias) (Some q)])
                   (funcs s) (BuiltinTypes s) (BuiltinValues s)
       | None =>
           mkState (alter (pkg_addImport path (List.length (pkgs s))) (f_p fl)
                          (pkgs s ++ [mkPackage path EmptyString Data.empty Data.empty
                                                Data.empty Data.empty Data.empty false]))
                   (alter (file_addImport (ast.Name alias) (List.length (imports s))) f (files s))
                   (types s) (values s)
                   (imports s ++ [mkImport f (ast.Name alias) (Some (List.length (pkgs s)))])
                   (funcs s) (BuiltinTypes s) (BuiltinValues s)
       end).
Proof.
  intros Hf Hp. unfold InspectImports. cbn [InspectImports_range].
  run. cbn [ast.ImportName ast.PathValue]. run. rewrite Hf. run.
  rewrite list_lookup_alter_eq, Hf. cbn [fmap option_fmap option_map].
  run. cbn [f_p file_addImport]. rewrite Hp.
  destruct (Data.Get (Imports pk) path) as [q0|]; run; unfold ret; f_equal;
    unfold with_pkgs, with_files, with_imports; stores; by rewrite alter_last.
Qed.

(** X14.  Two imports of the same path, from one file or from two files
    of one package, are bound to the same Package: the second finds the
    Package that the first has bound and creates none, and the first
    creates one only when the path was not imported before. *)
Theorem InspectImports_shares_package (f g : FileRef) (a b : ast.Ident) (path : string)
        (s : State) (fl gl : File) (pk : Package) :
  files s !! f = Some fl ->
  files s !! g = Some gl ->
  f_p gl = f_p fl ->
  pkgs s !! f_p fl = Some pk ->
  exists s1 s2 q,
    InspectImports f [ast.ImportS (ast.Build_ImportSpec (Some a) path)] s = Done None s1 /\
    InspectImports g [ast.ImportS (ast.Build_ImportSpec (Some b) path)] s1 = Done None s2 /\
    imports s2 = imports s ++ [mkImport f (ast.Name a) (Some q);
                               mkImport g (ast.Name b) (Some q)] /\
    pkgs s2 = pkgs s1 /\
    List.length (pkgs s1)
    = match Data.Get (Imports pk) path with
      | Some _ => List.length (pkgs s)
      | None => S (List.length (pkgs s))
      end.
Proof.
  intros Hf Hg Hfg Hp.
  rewrite (InspectImports_alias_run f a path s fl pk Hf Hp).
  set (fs1 := alter (file_addImport (ast.Name a) (List.length (imports s))) f (files s)).
  assert (exists gl1, fs1 !! g = Some gl1 /\ f_p gl1 = f_p fl) as (gl1 & Hg1 & Hfg1).
  { unfold fs1. destruct (decide (g = f)) as [->|Hne].
    - eexists. rewrite list_lookup_alter_eq, Hf. by split.
    - exists gl. by rewrite list_lookup_alter_ne. }
  destruct (Data.Get (Imports pk) path) as [q0|] eqn:Hget.
  - eexists _, _, q0. split; [reflexivity|].
    erewrite (InspectImports_alias_run g b path _ gl1 pk); [|exact Hg1|by rewrite Hfg1].
    rewrite Hget. split; [reflexivity|]. stores. by rewrite <- app_assoc.
  - eexists _, _, (List.length (pkgs s)). split; [reflexivity|].
    erewrite (InspectImports_alias_run g b path _ gl1
                (pkg_addImport path (List.length (pkgs s)) pk)); [|exact Hg1|].
    2:{ stores. rewrite Hfg1, list_lookup_alter_eq, (lookup_app_l_Some _ _ _ _ Hp). done. }
    cbn [Imports pkg_addImport]. rewrite Data_Get_Add_eq. split; [reflexivity|]. stores.
    rewrite <- app_assoc. split; [done|]. split; [done|].
    rewrite length_alter, length_app. cbn. lia.
Qed.

Lemma InspectImports_shares_package_witness :
  exists s1 s2,
    InspectImports 0 [SampleImport.aliased] Sample.start = Done None s1 /\
    InspectImports 1 [SampleImport.aliased] s1 = Done None s2 /\
    imports s2 = [mkImport 0 "f" (Some 1); mkImport 1 "f" (Some 1)] /\
    List.length (pkgs s2) = 2.
Proof.
  destruct (InspectImports_shares_package 0 1 (Sample.ident "f") (Sample.ident "f")
              (SampleImport.quoted "fmt") Sample.start _ _ _ eq_refl eq_refl eq_refl eq_refl)
    as (s1 & s2 & q & H1 & H2 & Hi & Hp & Hl).
  exists s1, s2. split; [exact H1|]. split; [exact H2|].
  assert (q = 1) as ->.
  { vm_compute in H1. injection H1 as <-. vm_compute in H2. injection H2 as <-.
    vm_compute in Hi. by injection Hi as <-. }
  split; [exact Hi|]. by rewrite Hp, Hl.
Defined.

(** ** Declarations that are not recorded *)

Lemma File_Inspect_range_unrecorded W fuel f decls : forall s,
  Forall (fun d => recorded d = false) decls ->
  File_Inspect_range W fuel f decls None s = Done None s.
Proof.
  induction decls as [|d rest IH]; intros s Hall; cbn [File_Inspect_range]; [done|].
  apply Forall_cons in Hall as [Hd Hall].
  destruct d as [fd|tok specs|]; [|destruct tok; try discriminate|];
    unfold InspectFunc, InspectType; run; by apply IH.
Qed.

(** X15.  [File.Inspect] records constants, variables and imports only.
    A file without a tree, or whose declarations are all of other kinds
    (functions and types among them), is inspected without an error and
    without a trace: no table of the file or of its package changes. *)
Theorem File_Inspect_unrecorded (W : World) (fuel : nat) (f : FileRef) (s : State)
        (fl : File) :
  files s !! f = Some fl ->
  (forall t, f_t fl = Some t -> Forall (fun d => recorded d = false) (ast.Decls t)) ->
  File_Inspect W fuel f s = Done None s.
Proof.
  intros Hf Hall. unfold File_Inspect. run. rewrite Hf.
  destruct (f_t fl) as [t|]; [|done]. by apply File_Inspect_range_unrecorded, Hall.
Qed.

Lemma File_Inspect_unrecorded_witness :
  File_Inspect Sample.world 3 0 (SampleCall.state [SampleCall.decl_f; ast.GenD token.TYPE []])
  = Done None (SampleCall.state [SampleCall.decl_f; ast.GenD token.TYPE []]).
Proof.
  eapply File_Inspect_unrecorded; [reflexivity|].
  intros t [= <-]. by repeat constructor.
Defined.

(** ** Termination on trees without object links *)

Section Live.

Context {A B : Type}.

Lemma live_ret (a : A) : live (ret a).
Proof. by intros s. Qed.

Lemma live_panic msg : live (@panic A msg).
Proof. by intros s. Qed.

Lemma live_bind (m : M A) (g : A -> M B) :
  live m -> (forall a, live (g a)) -> live (bind m g).
Proof.
  intros Hm Hg s. unfold bind. destruct (m s) as [a s1| |] eqn:E; [apply Hg | done|].
  by apply Hm in E.
Qed.

Lemma live_deref (o : option A) : live (deref o).
Proof. destruct o; [apply live_ret | apply live_panic]. Qed.

End Live.

Ltac live_step :=
  match goal with
  | |- live (bind _ _) => apply live_bind; [|intros]
  | |- live (ret _) => apply live_ret
  | |- live (panic _) => apply live_panic
  | |- live (deref _) => apply live_deref
  | |- live get => by intros ?
  | |- live (modify _) => by intros ?
  | |- live (newType _) => by intros ?
  | |- live (newFunc _) => by intros ?
  | |- live (newValue _) => by intros ?
  | |- live (newFile _) => by intros ?
  | |- live (newPkg _) => by intros ?
  | |- live (match ?x with _ => _ end) => destruct x
  | |- live (let '(_, _) := ?x in _) => destruct x
  end.

Ltac live_auto :=
  unfold getPkg, getFile, getType, getValue, getImport, getFunc,
         setPkg, setFile, setValue, setImport, setFunc, NewFile, NewPackage, on_nil;
  repeat live_step.

Section LiveEngine.

Context (W : World).

Lemma Parse_range_live p fs : live (Parse_range W p fs).
Proof. induction fs as [|f rest IH]; cbn [Parse_range]; live_auto; done. Qed.

Lemma Parse_live p : live (Parse W p).
Proof. unfold Parse. live_auto; apply Parse_range_live. Qed.

Lemma GetType_live f name : live (GetType W f name).
Proof. unfold GetType. live_auto; apply Parse_live. Qed.

(** Without a link to its declaration an identifier is resolved by
    lookups alone. *)
Lemma TypeIdent_live self f i : ast.Obj i = None -> live (TypeIdent W self f i).
Proof.
  destruct i as [n o]. cbn [ast.Obj]. intros ->. unfold TypeIdent. cbn [ast.Obj ast.Name].
  live_auto; apply GetType_live.
Qed.

Lemma typePointer_live f t : live (typePointer f t).
Proof. unfold typePointer. live_auto. Qed.

Lemma TypeFuncParams_names_live names fn side t : live (TypeFuncParams_names W names fn side t).
Proof.
  induction names as [|n rest IH]; cbn [TypeFuncParams_names]; unfold paramsAdd; live_auto.
  apply IH.
Qed.

End LiveEngine.

Lemma TypeExpr_live W : forall fuel e f,
  unlinked e = true -> depth e < fuel -> live (TypeExpr W fuel f e).
Proof.
  induction fuel as [|fuel IH]; intros e f Hu Hd; [lia|]. cbn [TypeExpr].
  assert (Hfields : forall from fn side,
             match from with
             | Some l => forallb (fun fld => match fld with ast.mkField _ t => unlinked t end) l
             | None => true
             end = true ->
             match from with
             | Some l =>
                 foldr (fun fld acc => Nat.max (match fld with ast.mkField _ t => depth t end) acc)
                       0 l
             | None => 0
             end < fuel ->
             live (TypeFuncParams W (TypeExpr W fuel) f from fn side)).
  { intros [l|] fn side Hl Hdl; cbn [TypeFuncParams]; [|apply live_ret].
    induction l as [|[names t] l IHl]; cbn [TypeFuncParams_range forallb foldr] in *;
      [apply live_ret|].
    apply andb_prop in Hl as [Ht Hl]. cbn [ast.FieldType ast.FieldNames].
    apply live_bind; [apply IH; [done|lia]|]. intros t'.
    apply live_bind; [apply TypeFuncParams_names_live|]. intros _. apply IHl; [done|lia]. }
  destruct e; cbn [TypeExpr_body unlinked depth] in Hu, Hd |- *; try apply live_ret.
  - apply IH; [done|lia].
  - apply TypeIdent_live. by apply bool_decide_eq_true in Hu.
  - unfold TypePointer. apply live_bind; [apply IH; [done|lia]|].
    intros t. apply typePointer_live.
  - unfold TypeUnary. destruct Op; try apply live_ret.
    apply live_bind; [apply IH; [done|lia]|]. intros t. apply typePointer_live.
  - apply andb_prop in Hu as [Hx Hy]. unfold TypeBinary.
    assert (Hx' : unlinked (unparen e1) = true /\ depth (unparen e1) <= depth e1).
    { destruct e1; cbn [unparen unlinked depth]; split; try done; lia. }
    destruct Hx' as [Hux Hdx].
    change (match e1 with ast.ParenExpr x' => x' | _ => e1 end) with (unparen e1).
    cbv zeta. destruct (unparen e1); apply IH; (done || lia).
  - unfold TypeCall. apply IH; [done|lia].
  - cbv zeta in Hu, Hd. apply andb_prop in Hu as [HuP HuR]. unfold TypeFunc.
    live_auto; apply Hfields; (done || lia).
  - destruct Typ as [[]|]; cbn [TypeExpr_body unlinked depth] in Hu, Hd |- *;
      try apply live_ret.
    + apply TypeIdent_live. by apply bool_decide_eq_true in Hu.
    + unfold TypeArray, arrayType. live_auto. apply IH; [done|lia].
    + apply andb_prop in Hu as [Hk Hv]. unfold TypeMap. live_auto; apply IH; (done || lia).
    + unfold TypeStruct. live_auto.
Qed.

(** X16.  On an expression whose identifiers carry no link to their
    declarations, as in every tree that [Parse] asks the parser for,
    [TypeExpr] terminates: the recursion follows the nesting of the
    expression, and once the bound on re-entrant calls exceeds the depth
    of the expression the evaluation returns or panics, and has the
    outcome that the definition of [evaluates] asks for. *)
Theorem TypeExpr_terminates (W : World) (fuel : nat) (f : FileRef) (e : ast.Expr)
        (s : State) :
  unlinked e = true ->
  depth e < fuel ->
  TypeExpr W fuel f e s <> OutOfFuel /\
  evaluates W f e s (TypeExpr W fuel f e s).
Proof.
  intros Hu Hd. pose proof (TypeExpr_live W fuel e f Hu Hd s) as H.
  split; [done|]. by exists fuel.
Qed.

Lemma TypeExpr_terminates_witness :
  TypeExpr Sample.world 4 0 SampleCall.call_lit Sample.start <> OutOfFuel.
Proof.
  apply (TypeExpr_terminates Sample.world 4 0 SampleCall.call_lit Sample.start);
    [reflexivity | vm_compute; lia].
Defined.

(** ** A group with a type annotation *)

(** X17.  A group with a type annotation that resolves to the Type [t],
    as [var a, b, c T = x, y, z]: one Value is created per name, in the
    order of the names, each of the kind asked for, bound to the file
    and of Type [t].  The annotation is evaluated once and the
    initializers are not looked at. *)
Theorem InspectValues_annotated_group (W : World)
        (self : FileRef -> ast.Expr -> M (option TypeRef))
        (f : FileRef) (k : ValueKind) (ns : list ast.Ident) (te : ast.Expr)
        (vs : list ast.Expr) (s s1 : State) (t : TypeRef)
        (fl fl1 : File) (pk pk1 : Package) :
  files s !! f = Some fl ->
  pkgs s !! f_p fl = Some pk ->
  ns <> [] ->
  Forall (fun n => Data.Get (Values pk) (ast.Name n) = None) ns ->
  self f te s = Done (Some t) s1 ->
  files s1 !! f = Some fl1 ->
  pkgs s1 !! f_p fl1 = Some pk1 ->
  NoDup (ast.Name <$> ns) ->
  Forall (fun n => Data.Get (Values pk1) (ast.Name n) = None) ns ->
  exists s',
    InspectValues W self f k [ast.ValueS (ast.Build_ValueSpec ns (Some te) vs)] s
    = Done None s' /\
    values s' = values s1 ++ ((fun n => mkValue (Some f) k (ast.Name n) (Some t)) <$> ns) /\
    Forall (fun n => declaredValueTyp f (ast.Name n) s' = Done (Some t) s') ns.
Proof.
  intros Hf Hp Hne Habs Hte Hf1 Hp1 Hnd Habs1.
  destruct (InspectValues_names_annotated self f k t [] (ast.Build_ValueSpec ns (Some te) vs)
              ns 0 s1 fl1 pk1 Hf1 Hp1 Hnd Habs1)
    as (s' & pk' & Hrun & _ & _ & _ & _ & Hnew & Hvals).
  exists s'. split; [|split; [done|]].
  - unfold InspectValues. cbn [InspectValues_range]. run. rewrite Hf. run. rewrite Hp.
    cbn [ast.Names ast.Type_ ast.Values]. rewrite (fresh_names pk ns Habs), omap_id_Some.
    destruct ns as [|n0 ns0]; [done|]. cbn [List.length Nat.eqb].
    run. rewrite (bind_Done _ _ _ _ _ Hte). run.
    rewrite (bind_Done _ _ _ _ _ Hrun). by run.
  - eapply Forall_impl; [exact Hnew|]. intros n. apply declared_typ.
Qed.

Lemma InspectValues_annotated_group_witness :
  exists s',
    InspectValues Sample.world (TypeExpr Sample.world 2) 0 VAR
      [ast.ValueS (ast.Build_ValueSpec [Sample.ident "a"; Sample.ident "b"]
                     (Some (Sample.name "float64"))
                     [Sample.lit token.INT "1"; Sample.lit token.STRING "x"])]
      Sample.start
    = Done None s' /\
    values s' = values Sample.start
                ++ [mkValue (Some 0) VAR "a" (Some Sample.float64_t);
                    mkValue (Some 0) VAR "b" (Some Sample.float64_t)].
Proof.
  destruct (InspectValues_annotated_group Sample.world (TypeExpr Sample.world 2) 0 VAR
              [Sample.ident "a"; Sample.ident "b"] (Sample.name "float64")
              [Sample.lit token.INT "1"; Sample.lit token.STRING "x"]
              Sample.start Sample.start Sample.float64_t
              (mkFile 0 "a" (Some (ast.Build_File "p" [])) Data.empty)
              (mkFile 0 "a" (Some (ast.Build_File "p" [])) Data.empty)
              (mkPackage "p" "p" [("a", 0); ("b", 1)] Data.empty Data.empty Data.empty
                         Data.empty false)
              (mkPackage "p" "p" [("a", 0); ("b", 1)] Data.empty Data.empty Data.empty
                         Data.empty false))
    as (s' & Hrun & Hvals & _);
    try done; try (by repeat constructor).
  - repeat (apply NoDup_cons_2;
            [rewrite ?not_elem_of_cons; repeat split; try discriminate; apply not_elem_of_nil|]).
    apply NoDup_nil_2.
  - by exists s'.
Defined.

(** ** The Type of a function literal *)

Lemma linked_frame f fn typ s s' :
  frame (S fn) s s' -> linked f fn typ s -> linked f fn typ s'.
Proof.
  intros F [Ht (fnc & Hfn & Hl)]. split; [by eapply frame_type|].
  exists fnc. split; [|done]. rewrite (frame_func _ _ _ _ F); [done | lia].
Qed.

Lemma paramsAdd_linked W f fn typ side t s a s' :
  paramsAdd W fn side t s = Done a s' -> linked f fn typ s -> linked f fn typ s'.
Proof.
  unfold paramsAdd. run. destruct (funcs s !! fn) as [fnc0|] eqn:Hfn0; [|done].
  destruct (func_list side fnc0) as [d|].
  - run. destruct t as [tr|]; [|done]. run.
    destruct (types s !! tr) as [ty|]; [|done]. run.
    intros [= _ <-] [Ht (fnc & Hfn & Hfile & Htyp)]. split; [done|]. stores.
    exists (func_add side (t_name ty) tr fnc). rewrite list_lookup_alter_eq, Hfn.
    by destruct side.
  - unfold on_nil. destruct (Data_Add_nil W t); [done|]. by intros [= _ <-].
Qed.

Lemma TypeFuncParams_linked W self f fn typ from side :
  (forall k g e, keeps k (self g e)) ->
  forall s a s',
    TypeFuncParams W self f from fn side s = Done a s' ->
    linked f fn typ s -> linked f fn typ s'.
Proof.
  intros Hself. destruct from as [fields|]; cbn [TypeFuncParams]; [|by intros s a s' [= _ <-]].
  induction fields as [|field rest IH]; intros s a s'; cbn [TypeFuncParams_range].
  - by intros [= _ <-].
  - intros H Hl. apply bind_inv in H as (t & s1 & H1 & H).
    apply bind_inv in H as (u & s2 & H2 & H3).
    eapply IH; [exact H3|].
    assert (Hl1 : linked f fn typ s1).
    { eapply linked_frame; [|exact Hl]. eapply Hself; [exact H1|].
      destruct Hl as [_ (fnc & Hfn & _)]. by eapply lookup_lt_Some. }
    clear H1 H3 Hl. revert s1 u s2 H2 Hl1.
    induction (ast.FieldNames field) as [|n names IHn]; intros s1 u s2;
      cbn [TypeFuncParams_names].
    + by intros [= _ <-].
    + intros H Hl. apply bind_inv in H as (u1 & s3 & H1 & H2).
      eapply IHn; [exact H2|]. by eapply paramsAdd_linked.
Qed.

(** X18.  A function literal always gets a new FUNC Type and a new Func,
    at the next free addresses, and the two stay linked to each other
    while the parameters and results are evaluated: the payload of the
    Type is the Func, and the Func belongs to the file and points back
    to the Type. *)
Theorem TypeFunc_fresh_and_linked (W : World) (fuel : nat) (f : FileRef)
        (Params Results : option (list ast.Field)) (s : State)
        (r : option TypeRef) (s' : State) :
  TypeExpr W (S fuel) f (ast.FuncLit Params Results) s = Done r s' ->
  r = Some (List.length (types s)) /\
  linked f (List.length (funcs s)) (List.length (types s)) s'.
Proof.
  cbn [TypeExpr TypeExpr_body]. unfold TypeFunc. run. unfold setFunc. run. intros H.
  apply bind_inv in H as (u1 & s1 & H1 & H). apply bind_inv in H as (u2 & s2 & H2 & H).
  injection H as <- <-. split; [done|].
  pose proof (fun k => TypeExpr_keeps W k fuel) as Hself.
  eapply (TypeFuncParams_linked _ _ _ _ _ _ _ Hself); [exact H2|].
  eapply (TypeFuncParams_linked _ _ _ _ _ _ _ Hself); [exact H1|].
  split; stores.
  - by rewrite list_lookup_middle.
  - eexists. rewrite alter_last, list_lookup_middle by done. done.
Qed.

Lemma TypeFunc_fresh_and_linked_witness :
  exists s',
    TypeExpr Sample.world 2 0 (ast.FuncLit (Some SampleCall.results)
                                           (Some SampleCall.results)) Sample.start
    = Done (Some 6) s' /\
    linked 0 0 6 s'.
Proof.
  destruct (TypeExpr Sample.world 2 0 (ast.FuncLit (Some SampleCall.results)
                                                   (Some SampleCall.results)) Sample.start)
    as [r s'| |] eqn:E; try (vm_compute in E; discriminate).
  destruct (TypeFunc_fresh_and_linked _ _ _ _ _ _ _ _ E) as [-> Hl].
  by exists s'.
Defined.

(** ** Identifiers that are linked to their declaration *)

Lemma declaredValueTyp_inv f n s r s' :
  declaredValueTyp f n s = Done r s' -> s' = s.
Proof.
  unfold declaredValueTyp. run. destruct (files s !! f) as [fl|]; [|done]. run.
  destruct (pkgs s !! f_p fl) as [pk|]; [|done].
  destruct (Data.Get (Values pk) n) as [v|]; [|done]. run.
  destruct (values s !! v); [|done]. by intros [= _ <-].
Qed.

(** X19.  An identifier that no table resolves and that is linked to a
    constant or variable declaration is resolved on demand: [TypeIdent]
    inspects the declaration, after which every name of that
    declaration is in the Values table of the package, and returns the
    Type recorded for the identifier's own name. *)
Theorem TypeIdent_linked_value (W : World) (fuel : nat) (f : FileRef) (i : ast.Ident)
        (o : ast.Object) (vs : ast.ValueSpec) (s : State) (fl : File) (pk : Package)
        (r : option TypeRef) (s' : State) :
  files s !! f = Some fl ->
  pkgs s !! f_p fl = Some pk ->
  contains "." (ast.Name i) = false ->
  Data.Get (BuiltinValues s) (ast.Name i) = None ->
  Data.Get (BuiltinTypes s) (ast.Name i) = None ->
  Data.Get (Types pk) (ast.Name i) = None ->
  ast.Obj i = Some o ->
  ast.ObjKindOf o = ast.Var \/ ast.ObjKindOf o = ast.Con ->
  Obj_Decl W (ast.ObjDecl o) = ast.ValueSpecN vs ->
  TypeExpr W (S fuel) f (ast.IdentExpr i) s = Done r s' ->
  all_declared f (ast.ValueS vs) s' /\
  declaredValueTyp f (ast.Name i) s' = Done r s'.
Proof.
  intros Hf Hp Hq Hbv Hbt Hty Hobj Hkind Hdecl.
  cbn [TypeExpr TypeExpr_body]. unfold TypeIdent. run. rewrite Hbv.
  rewrite (bind_Done _ _ _ _ _ (GetType_unqualified W f (ast.Name i) s fl pk Hf Hp Hq)).
  rewrite Hbt, Hty. cbn [fst]. rewrite Hobj, Hdecl.
  assert (Hrun : forall vk,
             (err <- InspectValue W (TypeExpr W fuel) f vk vs ;;
              match err with
              | None => declaredValueTyp f (ast.Name i)
              | Some _ => ret None
              end) s = Done r s' ->
             all_declared f (ast.ValueS vs) s' /\
             declaredValueTyp f (ast.Name i) s' = Done r s').
  { intros vk H. apply bind_inv in H as (err & s1 & H1 & H2).
    unfold InspectValue, InspectValues in H1.
    apply bind_inv in H1 as (u & s2 & H1 & [= <- <-]).
    pose proof (declaredValueTyp_inv _ _ _ _ _ H2) as ->. split; [|done].
    assert (Hall : Forall (fun sp => all_declared f sp s2) [ast.ValueS vs]).
    { eapply InspectValues_range_declares; [|exact H1]. intros g e. apply TypeExpr_holds. }
    by apply Forall_cons in Hall as [Hall _]. }
  destruct Hkind as [-> | ->]; apply Hrun.
Qed.

Lemma TypeIdent_linked_value_witness :
  exists s',
    TypeExpr SampleObj.world 2 0 SampleObj.x Sample.start = Done (Some Sample.float64_t) s' /\
    declaredValueTyp 0 "x" s' = Done (Some Sample.float64_t) s'.
Proof.
  destruct (TypeExpr SampleObj.world 2 0 SampleObj.x Sample.start) as [r s'| |] eqn:E;
    try (vm_compute in E; discriminate).
  destruct (TypeIdent_linked_value SampleObj.world 1 0
              (ast.Build_Ident "x" (Some (ast.Build_Object ast.Var 0)))
              (ast.Build_Object ast.Var 0) SampleObj.x_spec Sample.start
              _ _ r s' eq_refl eq_refl eq_refl eq_refl eq_refl eq_refl eq_refl
              (or_introl eq_refl) eq_refl E) as [_ H].
  exists s'. assert (r = Some Sample.float64_t) as ->; [|done].
  vm_compute in E. by injection E as <- _.
Defined.

(** ** The lists of a function literal *)

Lemma nil_lists_frame fn s s' :
  frame (S fn) s s' -> nil_lists fn s -> nil_lists fn s'.
Proof.
  intros F (fnc & Hfn & Hl). exists fnc. split; [|done].
  rewrite (frame_func _ _ _ _ F); [done | lia].
Qed.

(** [Add] on a nil list: when the call returns, nothing has changed. *)
Lemma paramsAdd_nil W fn side t s a s' :
  paramsAdd W fn side t s = Done a s' -> nil_lists fn s ->
  s' = s /\ Data_Add_nil W t = None.
Proof.
  intros H (fnc & Hfn & Hin & Hout). revert H. unfold paramsAdd. run. rewrite Hfn.
  assert (func_list side fnc = None) as -> by (by destruct side).
  unfold on_nil. destruct (Data_Add_nil W t); [done|]. by intros [= _ <-].
Qed.

Lemma TypeFuncParams_names_nil W names fn side t : forall s a s',
  TypeFuncParams_names W names fn side t s = Done a s' -> nil_lists fn s ->
  s' = s /\ (names <> [] -> Data_Add_nil W t = None).
Proof.
  induction names as [|n rest IH]; intros s a s'; cbn [TypeFuncParams_names].
  - by intros [= _ <-].
  - intros H Hnil. apply bind_inv in H as (u & s1 & H1 & H2).
    destruct (paramsAdd_nil _ _ _ _ _ _ _ H1 Hnil) as [-> Hadd].
    destruct (IH _ _ _ H2 Hnil) as [-> _]. by split.
Qed.

Lemma TypeFuncParams_nil W self f fn from side :
  (forall k g e, keeps k (self g e)) ->
  forall s a s',
    TypeFuncParams W self f from fn side s = Done a s' ->
    nil_lists fn s ->
    nil_lists fn s' /\
    ((forall t, is_Some (Data_Add_nil W t)) ->
     Forall (fun field => ast.FieldNames field = []) (default [] from)).
Proof.
  intros Hself. destruct from as [fields|]; cbn [TypeFuncParams default];
    [|intros s a s' [= _ <-] Hnil; by split].
  induction fields as [|field rest IH]; intros s a s'; cbn [TypeFuncParams_range].
  - intros [= _ <-] Hnil. by split.
  - intros H Hnil. apply bind_inv in H as (t & s1 & H1 & H).
    apply bind_inv in H as (u & s2 & H2 & H3).
    assert (Hnil1 : nil_lists fn s1).
    { eapply nil_lists_frame; [|exact Hnil]. eapply Hself; [exact H1|].
      destruct Hnil as (fnc & Hfn & _). by eapply lookup_lt_Some. }
    destruct (TypeFuncParams_names_nil _ _ _ _ _ _ _ _ H2 Hnil1) as [-> Hadd].
    destruct (IH _ _ _ H3 Hnil1) as [Hnil' Hrest]. split; [done|].
    intros Hpanics. apply Forall_cons. split; [|by apply Hrest].
    destruct (ast.FieldNames field) as [|n names]; [done|].
    destruct (Hpanics t) as [msg Hmsg]. rewrite Hadd in Hmsg; done.
Qed.

(** X20.  The Func of a function literal never gets a parameter or a
    result: it is created with two nil lists, and they are nil whenever
    the evaluation of the literal returns, whatever [Add] does on a nil
    list.  If [Add] panics on a nil list, the evaluation returns only
    for a literal in which no parameter and no result has a name. *)
Theorem TypeFunc_lists_stay_nil (W : World) (fuel : nat) (f : FileRef)
        (Params Results : option (list ast.Field)) (s : State)
        (r : option TypeRef) (s' : State) :
  TypeExpr W (S fuel) f (ast.FuncLit Params Results) s = Done r s' ->
  nil_lists (List.length (funcs s)) s' /\
  ((forall t, is_Some (Data_Add_nil W t)) ->
   Forall (fun field => ast.FieldNames field = [])
          (default [] Params ++ default [] Results)).
Proof.
  cbn [TypeExpr TypeExpr_body]. unfold TypeFunc. run. unfold setFunc. run. intros H.
  apply bind_inv in H as (u1 & s1 & H1 & H). apply bind_inv in H as (u2 & s2 & H2 & H).
  injection H as <- <-.
  pose proof (fun k => TypeExpr_keeps W k fuel) as Hself.
  destruct (TypeFuncParams_nil _ _ _ _ _ _ Hself _ _ _ H1) as [Hnil1 Hin].
  { eexists. stores. rewrite alter_last, list_lookup_middle by done. done. }
  destruct (TypeFuncParams_nil _ _ _ _ _ _ Hself _ _ _ H2 Hnil1) as [Hnil2 Hout].
  split; [done|]. intros Hpanics. apply Forall_app. auto.
Qed.

Lemma TypeFunc_lists_stay_nil_witness :
  exists r s',
    TypeExpr Sample.world 2 0 (ast.FuncLit (Some SampleCall.results)
                                           (Some SampleCall.results)) Sample.start
    = Done r s' /\
    nil_lists 0 s' /\
    Forall (fun field => ast.FieldNames field = [])
           (SampleCall.results ++ SampleCall.results).
Proof.
  destruct (TypeExpr Sample.world 2 0 (ast.FuncLit (Some SampleCall.results)
                                                   (Some SampleCall.results)) Sample.start)
    as [r s'| |] eqn:E; try (vm_compute in E; discriminate).
  exists r, s'. split; [done|].
  destruct (TypeFunc_lists_stay_nil _ _ _ _ _ _ _ _ E) as [Hnil Hun].
  split; [exact Hnil|]. apply Hun. intros t. by eexists.
Defined.
